(** * fire-viz: the derivation pipelines of [app.py]

    [app.py] is one linear Streamlit script.  Three pipelines are embedded
    here as pure functions of the loaded tables and the widget values:

    - the fire-history pipeline (lines 132-193): cause filter, yearly
      aggregation of burned acres, the trailing rolling mean of the chart and
      the Augmented Dickey-Fuller narrative;
    - the climate pipeline (lines 267-325): the symmetric rolling mean;
    - the recovery pipeline (lines 354-416): the left merge of burnt and
      recovered homes and the valuation narrative.

    Conventions of the embedding.
    - A float64 cell is an exact rational ([Q]); a nullable cell is an
      [option] whose [None] is pandas' NaN.  Rounding error of IEEE
      arithmetic and the wrap-around of int64 sums are not modelled: a sum
      is the exact sum.  For whole numbers this is what numpy computes as
      long as the absolute values add up to at most [2^53]
      ([exact_sum_limit]); theorems on the value of such a sum carry that
      bound as a hypothesis.
    - A Python exception is a value of [exn]; code that may raise returns a
      [result].
    - The statistical test [adfuller] of statsmodels is a parameter. *)

From Stdlib Require Import ZArith QArith Qround Qreduction List Bool String Ascii Lia Sorted
  Lqa.
Import ListNotations.

(* ================================================================= *)
(** ** Python runtime: exceptions, floats, rounding *)

Module Py.

Inductive exn : Type :=
| KeyError (key : string)
| ValueError (msg : string)
| OutOfBoundsDatetime
| ZeroDivisionError.

Inductive result (A : Type) : Type :=
| Ok (a : A)
| Raise (e : exn).
Arguments Ok {A} a.
Arguments Raise {A} e.

Definition bind {A B : Type} (m : result A) (k : A -> result B) : result B :=
  match m with
  | Ok a => k a
  | Raise e => Raise e
  end.

Fixpoint mapM {A B : Type} (f : A -> result B) (l : list A) : result (list B) :=
  match l with
  | [] => Ok []
  | x :: xs =>
      bind (f x) (fun y => bind (mapM f xs) (fun ys => Ok (y :: ys)))
  end.

(** A float that may be NaN. *)
Definition float := option Q.

Definition NaN : float := None.

(** [a - b] on floats: NaN is absorbing. *)
Definition fsub (a b : float) : float :=
  match a, b with
  | Some x, Some y => Some (x - y)%Q
  | _, _ => None
  end.

(** [a < b] on floats: every comparison with NaN is False. *)
Definition flt (a b : float) : bool :=
  match a, b with
  | Some x, Some y =>
      match (x ?= y)%Q with Lt => true | _ => false end
  | _, _ => false
  end.

(** Round half to even, the rounding of [np.round] / [np.rint]. *)
Definition rint (q : Q) : Z :=
  let f := Qfloor q in
  match ((q - inject_Z f) ?= (1 # 2))%Q with
  | Lt => f
  | Gt => (f + 1)%Z
  | Eq => if Z.even f then f else (f + 1)%Z
  end.

Definition pow10 (d : nat) : Q := inject_Z (10 ^ Z.of_nat d).

(** [np.round(q, d)]: scale by [10^d], round half to even, scale back.  The
    scaling is exact here; in float64 the product [q * 10^d] is itself
    rounded before [rint] sees it. *)
Definition np_round (q : Q) (d : nat) : Q :=
  Qred (inject_Z (rint (q * pow10 d)) / pow10 d).

Definition np_round_float (x : float) (d : nat) : float :=
  match x with
  | Some q => Some (np_round q d)
  | None => None
  end.

(** [np.sum] of a pandas Series: NaN cells are skipped, the empty sum is 0.
    The sum is exact; numpy's sum of a float64 column is rounded, and of an
    int64 column wraps, once the partial sums leave the range in which whole
    numbers are represented exactly. *)
Definition np_sum (col : list float) : Q :=
  fold_left (fun acc x => match x with Some q => (acc + q)%Q | None => acc end)
            col 0%Q.

(** [int(x)] of a finite float: truncation toward zero. *)
Definition int (q : Q) : Z := Z.quot (Qnum q) (Zpos (Qden q)).

(** [a / b] on Python ints: true division, raising on a zero divisor. *)
Definition truediv (a b : Z) : result Q :=
  if (b =? 0)%Z then Raise ZeroDivisionError
  else Ok (Qred (inject_Z a / inject_Z b)).

End Py.
Import Py.

Notation "x <- m ;; k" := (Py.bind m (fun x => k))
  (at level 61, m at next level, right associativity).

(* ================================================================= *)
(** ** Fire-history pipeline (lines 99-141) *)

(** One row of the fire perimeter table after [load_data]: [YEAR] is the
    numeric year, [CAUSE] the cause code, [GIS_ACRES] the burned area. *)
Record FireRecord : Type := {
  YEAR : Z;
  CAUSE : option Z;
  GIS_ACRES : float
}.

Definition cause_dict : list (string * Z) :=
  [ ("Lightning", 1); ("Equipment Use", 2); ("Smoking", 3); ("Campfire", 4);
    ("Debris", 5); ("Railroad", 6); ("Arson", 7); ("Playing with fire", 8);
    ("Miscellaneous", 9); ("Vehicle", 10); ("Powerline", 11);
    ("Unknown / Unidentified", 14); ("Escaped Prescribed Burn", 18) ]%string%Z.

(** [cause_dict[name]] *)
Fixpoint dict_get (d : list (string * Z)) (name : string) : result Z :=
  match d with
  | [] => Raise (KeyError name)
  | (k, v) :: rest => if String.eqb k name then Ok v else dict_get rest name
  end.

(** The choices of the cause select box: ["All"] + list(cause_dict.keys()). *)
Definition cause_choices : list string := "All"%string :: map fst cause_dict.

(** [df.CAUSE == code]: a missing cause compares unequal. *)
Definition cause_is (code : Z) (r : FireRecord) : bool :=
  match CAUSE r with
  | Some c => (c =? code)%Z
  | None => false
  end.

(** Lines 132-133: the cause filter. *)
Definition record_filter (cause_option : string) (df : list FireRecord)
  : result (list FireRecord) :=
  if negb (String.eqb cause_option "All") then
    code <- dict_get cause_dict cause_option ;;
    Ok (filter (cause_is code) df)
  else Ok df.

(** One step of a sorted group-by-sum: add [a] to the group of key [y],
    opening the group at its sorted position when it is new. *)
Fixpoint group_add (y : Z) (a : Q) (groups : list (Z * Q)) : list (Z * Q) :=
  match groups with
  | [] => [(y, a)]
  | (k, s) :: rest =>
      if (y <? k)%Z then (y, a) :: groups
      else if (y =? k)%Z then (k, (s + a)%Q) :: rest
      else (k, s) :: group_add y a rest
  end.

(** The contribution of a cell to a pandas sum: NaN is skipped. *)
Definition nan_skipped (x : float) : Q :=
  match x with Some q => q | None => 0%Q end.

(** Line 136: [df.groupby('YEAR')['GIS_ACRES'].sum()], keys ascending.  A
    group adds the acreages of its records in the order of the table; each
    addition is exact here and rounded in float64. *)
Definition groupby_year_sum_acres (df : list FireRecord) : list (Z * Q) :=
  fold_left (fun groups r => group_add (YEAR r) (nan_skipped (GIS_ACRES r)) groups)
            df [].

(** Lines 136-140: the yearly series with the years up to 1910 dropped. *)
Definition tot_by_year (df : list FireRecord) : list (Z * Q) :=
  filter (fun row => (1910 <? fst row)%Z) (groupby_year_sum_acres df).

(** Days from 1970-01-01 to January 1st of year [y] (proleptic Gregorian). *)
Definition days_to_jan1 (y : Z) : Z :=
  let y' := (y - 1)%Z in
  let era := (y' / 400)%Z in
  let yoe := (y' - era * 400)%Z in
  let doe := (yoe * 365 + yoe / 4 - yoe / 100 + 306)%Z in
  (era * 146097 + doe - 719468)%Z.

Definition ns_per_day : Z := 86400 * 1000000000.

(** [pd.to_datetime(y, format='%Y')] on one integer year: the year is read as
    four digits and the timestamp is an int64 count of nanoseconds. *)
Definition to_datetime (y : Z) : result Z :=
  if ((1000 <=? y) && (y <=? 9999))%Z then
    let ns := (days_to_jan1 y * ns_per_day)%Z in
    if ((- 2 ^ 63 <? ns) && (ns <? 2 ^ 63))%Z then Ok ns
    else Raise OutOfBoundsDatetime
  else Raise (ValueError "time data does not match format '%Y'").

(** Line 141: the year column replaced by timestamps. *)
Definition to_datetime_rows (rows : list (Z * Q)) : result (list (Z * Q)) :=
  mapM (fun row => t <- to_datetime (fst row) ;; Ok (t, snd row)) rows.

(** Lines 132-141: the table [tot] (columns [year], [acres]) that the charts
    and the test read. *)
Definition tot (cause_option : string) (df : list FireRecord)
  : result (list (Z * Q)) :=
  df' <- record_filter cause_option df ;;
  to_datetime_rows (tot_by_year df').

(* ================================================================= *)
(** ** The window transform of the charts (lines 152-160, 300-305)

    [transform_window(rolling_mean='mean(field)', frame=[a, b])] is evaluated
    by Vega.  No sort is given, so no two rows are peers and the frame counts
    rows: for the row at position [i] of [n] rows the aggregate runs over
    the positions [max(0, i - |a|) .. min(n, i + |b| + 1) - 1]. *)

Module Vega.
Section Window.

Context {K : Type}.

(** [data.slice(i0, i1)] *)
Definition slice {A : Type} (i0 i1 : nat) (l : list A) : list A :=
  firstn (i1 - i0) (skipn i0 l).

(** The frame bounds of row [i]; a [None] bound is unbounded. *)
Definition set_window (frame : option Z * option Z) (i n : nat) : nat * nat :=
  let i0 := match fst frame with
            | None => 0%Z
            | Some a => Z.max 0 (Z.of_nat i - Z.abs a)
            end in
  let i1 := match snd frame with
            | None => Z.of_nat n
            | Some b => Z.min (Z.of_nat n) (Z.of_nat i + Z.abs b + 1)
            end in
  (Z.to_nat i0, Z.to_nat i1).

Definition Qsum (vs : list Q) : Q := fold_left Qplus vs 0%Q.

(** The [mean] aggregate: undefined on an empty frame. *)
Definition agg_mean (vs : list Q) : option Q :=
  match vs with
  | [] => None
  | _ :: _ => Some (Qred (Qsum vs / inject_Z (Z.of_nat (List.length vs))))
  end.

(** Every row keeps its fields and gains the aggregate of its frame. *)
Definition transform_window_mean (frame : option Z * option Z)
           (data : list (K * Q)) : list (K * Q * option Q) :=
  let n := List.length data in
  map (fun ir : nat * (K * Q) =>
         let (i0, i1) := set_window frame (fst ir) n in
         (snd ir, agg_mean (map snd (slice i0 i1 data))))
      (combine (seq 0 n) data).

(** The line mark: x is the time key, y the [rolling_mean] field. *)
Definition rolling_mean_line (frame : option Z * option Z)
           (data : list (K * Q)) : list (K * option Q) :=
  map (fun row => (fst (fst row), snd row)) (transform_window_mean frame data).

End Window.
End Vega.

(** Lines 152-160: the trailing moving average of [tot],
    [frame=[-window, 0]]. *)
Definition line_smooth (window : Z) (tot : list (Z * Q)) : list (Z * option Q) :=
  Vega.rolling_mean_line (Some (- window)%Z, Some 0%Z) tot.

(** Lines 300-305: the symmetric moving average of the climate table,
    [frame=[-nfdrs_window, nfdrs_window]]. *)
Definition nfdrs_smooth {K : Type} (nfdrs_window : Z) (nfdrs : list (K * Q))
  : list (K * option Q) :=
  Vega.rolling_mean_line (Some (- nfdrs_window)%Z, Some nfdrs_window) nfdrs.

(** The two uses above are instances of one smoother with [windowBefore]
    rows before and [windowAfter] rows after the current one. *)
Definition rolling_smoother {K : Type} (windowBefore windowAfter : Z)
           (series : list (K * Q)) : list (K * option Q) :=
  Vega.rolling_mean_line (Some (- windowBefore)%Z, Some windowAfter) series.

(** *** The smoother as the specification words it

    The indices [j] with [max(0, i - windowBefore) <= j <=
    min(length - 1, i + windowAfter)], and the arithmetic mean of the values
    at these indices. *)

Definition clipped_window (n i : nat) (windowBefore windowAfter : Z) : list nat :=
  filter (fun j =>
            (Z.max 0 (Z.of_nat i - windowBefore) <=? Z.of_nat j)%Z
            && (Z.of_nat j <=? Z.min (Z.of_nat n - 1) (Z.of_nat i + windowAfter))%Z)
         (seq 0 n).

Definition values_at {K : Type} (series : list (K * Q)) (idx : list nat) : list Q :=
  map (fun j => nth j (map snd series) 0%Q) idx.

Definition arithmetic_mean (vs : list Q) : Q :=
  Qred (fold_left Qplus vs 0%Q / inject_Z (Z.of_nat (List.length vs))).

(* ================================================================= *)
(** ** The stationarity narrative (lines 169-193) *)

(** The first two components of the tuple [adfuller] returns. *)
Record ADFResult : Type := {
  adf_statistic : float;
  adf_pvalue : float
}.

(** What the narrative template is filled with. *)
Record StationarityText : Type := {
  text_cause : string;
  text_stationarity : string;
  text_pvalue : float
}.

Section Stationarity.

(** [adfuller(x, autolag='t-stat')] of statsmodels, on the values of [x]. *)
Variable adfuller : list Z -> result ADFResult.

(** Line 169: the test reads the column [tot.year]. *)
Definition dftest (tot : list (Z * Q)) : result ADFResult :=
  adfuller (map fst tot).

(** Lines 172-175. *)
Definition stationarity (pvalue : float) : string :=
  if flt (fsub (Some 1%Q) pvalue) (Some (5 # 100)%Q)
  then "non-stationary"%string
  else "stationary"%string.

(** Lines 169-193: the test, the label and the filled template. *)
Definition stationarity_markdown (cause_option : string) (tot : list (Z * Q))
  : result StationarityText :=
  test <- dftest tot ;;
  let pvalue := adf_pvalue test in
  Ok {| text_cause := cause_option;
        text_stationarity := stationarity pvalue;
        text_pvalue := np_round_float (fsub (Some 1%Q) pvalue) 2 |}.

(** Lines 132-193 from the loaded table: what the session renders. *)
Definition fire_section (window : Z) (cause_option : string)
           (df : list FireRecord)
  : result (list (Z * option Q) * StationarityText) :=
  t <- tot cause_option df ;;
  let chart := line_smooth window t in
  text <- stationarity_markdown cause_option t ;;
  Ok (chart, text).

End Stationarity.

(* ================================================================= *)
(** ** Recovery pipeline (lines 354-416) *)

(** A row of [ALL_burnt_homes.csv] (the four columns read). *)
Record BurntHome : Type := {
  b_address : option string;
  b_lat : float;
  b_lon : float;
  b_zestimate : float
}.

(** A row of [homes]: the burnt row and the [status] column of the merge. *)
Record Home : Type := {
  address : option string;
  lat : float;
  lon : float;
  zestimate : float;
  status : option string
}.

(** Equality of merge keys: pandas matches a missing key with a missing key. *)
Definition key_eqb (a b : option string) : bool :=
  match a, b with
  | Some x, Some y => String.eqb x y
  | None, None => true
  | _, _ => false
  end.

(** Line 364: [recovered['status'] = "recovered"]; [recovered] is the
    address column of [ALL_recovered_homes.csv]. *)
Definition with_status (recovered : list (option string))
  : list (option string * string) :=
  map (fun a => (a, "recovered"%string)) recovered.

Definition merged_row (b : BurntHome) (st : option string) : Home :=
  {| address := b_address b; lat := b_lat b; lon := b_lon b;
     zestimate := b_zestimate b; status := st |}.

(** Line 366: [pd.merge(burnt, right, how='left', on=['address'])]: every
    left row is paired with each right row of the same key, in the order of
    the left rows, and kept once with a missing status when no key matches. *)
Definition merge_left (burnt : list BurntHome)
           (right : list (option string * string)) : list Home :=
  flat_map
    (fun b =>
       match filter (fun r => key_eqb (b_address b) (fst r)) right with
       | [] => [merged_row b None]
       | matches => map (fun r => merged_row b (Some (snd r))) matches
       end)
    burnt.

Definition status_is (s : string) (h : Home) : bool :=
  match status h with
  | Some s' => String.eqb s' s
  | None => false
  end.

(** Line 367: every status other than 'recovered' becomes 'destroyed' (the
    masked assignment writes through to the column of [homes]; a missing
    status differs from 'recovered'). *)
Definition fill_destroyed (h : Home) : Home :=
  if negb (status_is "recovered" h)
  then {| address := address h; lat := lat h; lon := lon h;
          zestimate := zestimate h; status := Some "destroyed"%string |}
  else h.

(** Line 368: the valuation rounded to whole dollars. *)
Definition round_zestimate (h : Home) : Home :=
  {| address := address h; lat := lat h; lon := lon h;
     zestimate := np_round_float (zestimate h) 0; status := status h |}.

(** Lines 364-368: the table [homes]. *)
Definition homes (burnt : list BurntHome) (recovered : list (option string))
  : list Home :=
  map round_zestimate
      (map fill_destroyed (merge_left burnt (with_status recovered))).

(** Lines 397-398. *)
Definition value_by_status (s : string) (hs : list Home) : Z :=
  int (np_sum (map zestimate (filter (status_is s) hs))).

Definition destroyed_value (hs : list Home) : Z := value_by_status "destroyed" hs.
Definition recovered_value (hs : list Home) : Z := value_by_status "recovered" hs.

(** Lines 400-402. *)
Definition nrow (hs : list Home) : Z := Z.of_nat (List.length hs).

Definition rough_buildings (hs : list Home) : Z :=
  int (inject_Z (rint (inject_Z (nrow hs) / 10)) * 10).

(** What the closing template is filled with. *)
Record RecoveryText : Type := {
  text_buildings : Z;
  text_total_billions : Q;
  text_rebuilt_billions : Q;
  text_percent : Q
}.

(** Lines 404-416: the arguments of the template, evaluated in order. *)
Definition recovery_markdown (hs : list Home) : result RecoveryText :=
  let d := destroyed_value hs in
  let r := recovered_value hs in
  total <- truediv (d + r) 1000000000 ;;
  rebuilt <- truediv r 1000000000 ;;
  share <- truediv r (r + d) ;;
  Ok {| text_buildings := rough_buildings hs;
        text_total_billions := np_round total 2;
        text_rebuilt_billions := np_round rebuilt 2;
        text_percent := Qred (np_round share 3 * 100) |}.

(** Lines 354-416 from the two tables. *)
Definition recovery_section (burnt : list BurntHome)
           (recovered : list (option string)) : result (list Home * RecoveryText) :=
  let hs := homes burnt recovered in
  text <- recovery_markdown hs ;;
  Ok (hs, text).

(** The assessed values of the destroyed-set input, rounded to whole units. *)
Definition rounded_input_values (burnt : list BurntHome) : list float :=
  map (fun b => np_round_float (b_zestimate b) 0) burnt.

(* ================================================================= *)
(** ** The script, top to bottom *)

(** What one run of the script puts on the page. *)
Record Page : Type := {
  page_fire_chart : list (Z * option Q);
  page_stationarity : StationarityText;
  page_climate_chart : list (Z * option Q);
  page_homes : list Home;
  page_recovery : RecoveryText
}.

(** One run: the three sections in the order of the file.  [nfdrs] is the
    climate table restricted to the date and the chosen variable.  An
    exception ends the run where it is raised. *)
Definition app (adfuller : list Z -> result ADFResult)
           (window : Z) (cause_option : string) (df : list FireRecord)
           (nfdrs_window : Z) (nfdrs : list (Z * Q))
           (burnt : list BurntHome) (recovered : list (option string))
  : result Page :=
  fire <- fire_section adfuller window cause_option df ;;
  let climate := nfdrs_smooth nfdrs_window nfdrs in
  recovery <- recovery_section burnt recovered ;;
  Ok {| page_fire_chart := fst fire;
        page_stationarity := snd fire;
        page_climate_chart := climate;
        page_homes := fst recovery;
        page_recovery := snd recovery |}.

(* ================================================================= *)
(** ** Auxiliary definitions used by the proofs *)

(** Two fire tables that agree on every column but the burned acreage. *)
Definition same_but_acres (df df' : list FireRecord) : Prop :=
  Forall2 (fun r r' => YEAR r = YEAR r' /\ CAUSE r = CAUSE r') df df'.

(** The key column of a sorted group table after one more key. *)
Fixpoint key_insert (y : Z) (keys : list Z) : list Z :=
  match keys with
  | [] => [y]
  | k :: rest =>
      if (y <? k)%Z then y :: keys
      else if (y =? k)%Z then k :: rest
      else k :: key_insert y rest
  end.

(** A cell holding a whole number, or nothing. *)
Definition whole (x : float) : Prop :=
  match x with
  | Some q => (q == inject_Z (Qfloor q))%Q
  | None => True
  end.

(** The integer sum of a column of whole cells. *)
Definition whole_sum (col : list float) : Z :=
  fold_right (fun x s => (match x with Some q => Qfloor q | None => 0 end + s)%Z)
             0%Z col.

(** The status the merge attaches to a burnt row when the recovered
    addresses are pairwise distinct. *)
Definition lookup_status (recovered : list (option string)) (b : BurntHome)
  : option string :=
  if existsb (key_eqb (b_address b)) recovered
  then Some "recovered"%string else None.

(** Two computations that raise the same exception or return tables with the
    same key column. *)
Definition same_keys (m m' : result (list (Z * Q))) : Prop :=
  match m, m' with
  | Ok t, Ok t' => map fst t = map fst t'
  | Raise e, Raise e' => e = e'
  | _, _ => False
  end.

(** The number of rows the merge emits for one burnt row. *)
Definition rows_for (recovered : list (option string)) (b : BurntHome) : nat :=
  Nat.max 1 (List.length (filter (key_eqb (b_address b)) recovered)).

(** A property of every cell of a column [map f rows]: name the row. *)
Tactic Notation "column_cell" ident(h) ident(H) :=
  apply Forall_forall;
  let x := fresh "x" in
  let X := fresh "X" in
  intros x X; apply in_map_iff in X; destruct X as [h [<- H]].

(** The sum of a list of numbers. *)
Fixpoint total (vs : list Q) : Q :=
  match vs with
  | [] => 0%Q
  | v :: rest => (v + total rest)%Q
  end.

(** What a record adds to the sum of its year. *)
Definition acres_of (r : FireRecord) : Q := nan_skipped (GIS_ACRES r).

(** The burned area of all records of year [y]. *)
Definition acres_in_year (df : list FireRecord) (y : Z) : Q :=
  total (map acres_of (filter (fun r => (YEAR r =? y)%Z) df)).

(** The sum held under key [y] in a group table. *)
Definition group_total (y : Z) (groups : list (Z * Q)) : Q :=
  total (map snd (filter (fun g => (fst g =? y)%Z) groups)).

(** A burnt home whose valuation is missing or not negative. *)
Definition nonneg_value (b : BurntHome) : Prop :=
  match b_zestimate b with
  | Some q => (0 <= q)%Q
  | None => True
  end.

(** The row of [homes] that a burnt home gives. *)
Definition home_row (recovered : list (option string)) (b : BurntHome) : Home :=
  {| address := b_address b; lat := b_lat b; lon := b_lon b;
     zestimate := np_round_float (b_zestimate b) 0;
     status := if existsb (key_eqb (b_address b)) recovered
               then Some "recovered"%string
               else Some "destroyed"%string |}.

(** The whole-dollar valuation of a burnt home, nothing when it is missing. *)
Definition rounded_value (b : BurntHome) : Z :=
  match b_zestimate b with
  | Some q => rint q
  | None => 0%Z
  end.

(** The sum of a list of integers. *)
Definition Zsum (l : list Z) : Z := fold_right Z.add 0%Z l.

(** Up to this magnitude float64 and int64 hold every whole number. *)
Definition exact_sum_limit : Z := 2 ^ 53.

(** The valuations of the rows of [homes] add up, in absolute value, to at
    most [exact_sum_limit], so that no partial sum of line 397 or 398 is
    rounded or wraps. *)
Definition sum_in_exact_range (burnt : list BurntHome)
           (recovered : list (option string)) : Prop :=
  (Zsum (map (fun b => Z.of_nat (rows_for recovered b) * Z.abs (rounded_value b))
             burnt)
   <= exact_sum_limit)%Z.

(** The burnt home's address is listed among the recovered homes. *)
Definition is_recovered (recovered : list (option string)) (b : BurntHome) : bool :=
  existsb (key_eqb (b_address b)) recovered.

(** The sum held under the first key [y] of a group table. *)
Fixpoint group_lookup (y : Z) (groups : list (Z * Q)) : option Q :=
  match groups with
  | [] => None
  | (k, s) :: rest => if (k =? y)%Z then Some s else group_lookup y rest
  end.

(** A group's running sum after one more acreage [a]. *)
Definition accumulate (sum : option Q) (a : Q) : option Q :=
  match sum with
  | Some s => Some (s + a)%Q
  | None => Some a
  end.

(** The sum of the records of one year, added in the order of the table. *)
Definition sum_in_order (records : list FireRecord) : option Q :=
  fold_left (fun sum r => accumulate sum (nan_skipped (GIS_ACRES r))) records None.

(* ================================================================= *)
(** ** Sample inputs *)

Module Sample.

Open Scope string_scope.

(** A unit-root test that refuses fewer than four observations and
    otherwise reports the p-value 0.99. *)
Definition adfuller (x : list Z) : result ADFResult :=
  if (List.length x <? 4)%nat
  then Raise (ValueError "sample size is too short to use selected regression component")
  else Ok {| adf_statistic := Some (1 # 2); adf_pvalue := Some (99 # 100) |}.

Definition fire (y c : Z) (a : Q) : FireRecord :=
  {| YEAR := y; CAUSE := Some c; GIS_ACRES := Some a |}.

Definition df : list FireRecord :=
  [ fire 2018 1 100; fire 2018 2 50; fire 2019 1 30; fire 1905 1 7;
    fire 2016 1 12; fire 2017 9 (5 # 2) ].

(** [df] with the years interleaved otherwise, each year's records in the
    order they have in [df]. *)
Definition df_interleaved : list FireRecord :=
  [ fire 2016 1 12; fire 2018 1 100; fire 1905 1 7; fire 2018 2 50;
    fire 2017 9 (5 # 2); fire 2019 1 30 ].

(** [df] with other acreages. *)
Definition df_other_acres : list FireRecord :=
  [ fire 2018 1 1; fire 2018 2 2; fire 2019 1 3; fire 1905 1 4;
    fire 2016 1 5; fire 2017 9 6 ].

Definition series : list (Z * Q) :=
  [ (2017%Z, 10%Q); (2018%Z, 20%Q); (2019%Z, 30%Q) ].

(** A yearly table of four observations, as [tot] holds it. *)
Definition yearly : list (Z * Q) :=
  [ (1483228800000000000%Z, 12%Q); (1514764800000000000%Z, 150%Q);
    (1546300800000000000%Z, 30%Q); (1577836800000000000%Z, 8%Q) ].

Definition burnt_home (a : string) (z : Q) : BurntHome :=
  {| b_address := Some a; b_lat := Some (384 # 10); b_lon := Some (- (1226 # 10));
     b_zestimate := Some z |}.

Definition burnt : list BurntHome :=
  [ burnt_home "A" 200; burnt_home "B" 100 ].

Definition recovered : list (option string) := [ Some "A" ].

(** The address "A" listed twice among the recovered homes. *)
Definition recovered_twice : list (option string) := [ Some "A"; Some "A" ].

(** Valuations that all round to zero. *)
Definition burnt_worthless : list BurntHome :=
  [ burnt_home "A" (1 # 4); burnt_home "B" (1 # 2) ].

End Sample.

(* ================================================================= *)
(** * Properties *)

(** ** Rounding and conversion *)

Lemma rint_comp (p q : Q) : (p == q)%Q -> rint p = rint q.
Proof.
  intro E. unfold rint.
  rewrite (Qfloor_comp _ _ E).
  assert (C : ((p - inject_Z (Qfloor q)) ?= (1 # 2))%Q
              = ((q - inject_Z (Qfloor q)) ?= (1 # 2))%Q)
    by (apply Qcompare_comp; [rewrite E|]; reflexivity).
  now rewrite C.
Qed.

Lemma rint_inject_Z (z : Z) : rint (inject_Z z) = z.
Proof.
  unfold rint. rewrite Qfloor_Z.
  assert (C : ((inject_Z z - inject_Z z) ?= (1 # 2))%Q = Lt).
  { rewrite <- Qlt_alt. setoid_replace (inject_Z z - inject_Z z)%Q with 0%Q by ring.
    reflexivity. }
  now rewrite C.
Qed.

Lemma int_whole (q : Q) (z : Z) : (q == inject_Z z)%Q -> int q = z.
Proof.
  unfold Qeq, int. simpl. intro E. rewrite Z.mul_1_r in E. rewrite E.
  apply Z.quot_mul. discriminate.
Qed.

Lemma np_round_0_whole (q : Q) : (np_round q 0 == inject_Z (rint q))%Q.
Proof.
  unfold np_round. rewrite Qred_correct.
  change (pow10 0) with 1%Q.
  rewrite (rint_comp (q * 1) q) by ring.
  field.
Qed.

Lemma np_round_2_scaled (q : Q) :
  (np_round q 2 * 100 == inject_Z (rint (q * 100)))%Q.
Proof.
  unfold np_round. rewrite Qred_correct.
  change (pow10 2) with 100%Q. field.
Qed.

Lemma flt_spec (x y : Q) : flt (Some x) (Some y) = true <-> (x < y)%Q.
Proof.
  unfold flt. rewrite Qlt_alt. destruct (x ?= y)%Q; split; congruence.
Qed.

Lemma rint_close (q : Q) :
  (inject_Z (rint q) - (1 # 2) <= q <= inject_Z (rint q) + (1 # 2))%Q.
Proof.
  pose proof (Qfloor_le q) as F. pose proof (Qlt_floor q) as C.
  rewrite inject_Z_plus in C. change (inject_Z 1) with 1%Q in C.
  unfold rint.
  destruct ((q - inject_Z (Qfloor q)) ?= (1 # 2))%Q eqn:E.
  - apply Qeq_alt in E.
    destruct (Z.even (Qfloor q)); [|rewrite inject_Z_plus; change (inject_Z 1) with 1%Q];
      lra.
  - apply Qlt_alt in E. lra.
  - apply Qgt_alt in E. rewrite inject_Z_plus. change (inject_Z 1) with 1%Q. lra.
Qed.

Lemma np_round_2_close (q : Q) :
  (q - (1 # 200) <= np_round q 2 <= q + (1 # 200))%Q.
Proof.
  pose proof (np_round_2_scaled q) as S.
  pose proof (rint_close (q * 100)) as [L U].
  rewrite <- S in L, U. lra.
Qed.

(** ** The cause filter *)

(** C8: with the sentinel "All" the cause filter returns the table it was
    given: the same records in the same order, none added, removed or
    changed. *)
Theorem record_filter_All (df : list FireRecord) :
  record_filter "All" df = Ok df.
Proof. reflexivity. Qed.

(** ** The stationarity label *)

Section StationarityFacts.

Variable adfuller : list Z -> result ADFResult.

Lemma stationarity_cases (pvalue : float) :
  stationarity pvalue = "non-stationary"%string
  \/ stationarity pvalue = "stationary"%string.
Proof. unfold stationarity. destruct (flt _ _); auto. Qed.

Lemma stationarity_non_stationary (pvalue : float) :
  stationarity pvalue = "non-stationary"%string
  <-> exists p, pvalue = Some p /\ (1 - p < 5 # 100)%Q.
Proof.
  unfold stationarity. destruct pvalue as [p|]; simpl fsub.
  - destruct (flt (Some (1 - p)%Q) (Some (5 # 100))) eqn:E.
    + split; [intros _|reflexivity]. exists p. split; [reflexivity|].
      now apply flt_spec.
    + split; [discriminate|]. intros [p' [[= <-] L]].
      apply flt_spec in L. congruence.
  - simpl. split; [discriminate|]. now intros [p [? _]].
Qed.

Lemma stationarity_stationary (pvalue : float) :
  stationarity pvalue = "stationary"%string
  <-> ~ exists p, pvalue = Some p /\ (1 - p < 5 # 100)%Q.
Proof.
  rewrite <- stationarity_non_stationary.
  destruct (stationarity_cases pvalue) as [E|E]; rewrite E.
  - split; [discriminate|]. intros N. now contradiction N.
  - split; [intros _; discriminate|reflexivity].
Qed.

(** C2: whenever the unit-root test returns, the label of the narrative is
    "non-stationary" exactly when the test's p-value [p] is a number with
    [1 - p < 0.05], and "stationary" otherwise. *)
Theorem stationarity_label_by_pvalue
        (cause_option : string) (tot : list (Z * Q)) (test : ADFResult) :
  dftest adfuller tot = Ok test ->
  exists text,
    stationarity_markdown adfuller cause_option tot = Ok text
    /\ (text_stationarity text = "non-stationary"%string
        <-> exists p, adf_pvalue test = Some p /\ (1 - p < 5 # 100)%Q)
    /\ (text_stationarity text = "stationary"%string
        <-> ~ exists p, adf_pvalue test = Some p /\ (1 - p < 5 # 100)%Q).
Proof.
  intro T. unfold stationarity_markdown. rewrite T. simpl.
  eexists. split; [reflexivity|]. simpl. split.
  - apply stationarity_non_stationary.
  - apply stationarity_stationary.
Qed.

End StationarityFacts.

(** C2 at the sample series. *)
Lemma stationarity_label_by_pvalue_witness :
  exists text,
    stationarity_markdown Sample.adfuller "All" Sample.yearly = Ok text
    /\ (text_stationarity text = "non-stationary"%string
        <-> exists p, Some (99 # 100) = Some p /\ (1 - p < 5 # 100)%Q)
    /\ (text_stationarity text = "stationary"%string
        <-> ~ exists p, Some (99 # 100) = Some p /\ (1 - p < 5 # 100)%Q).
Proof.
  apply (stationarity_label_by_pvalue Sample.adfuller "All" Sample.yearly
           {| adf_statistic := Some (1 # 2); adf_pvalue := Some (99 # 100) |}).
  reflexivity.
Defined.

(** ** The input of the unit-root test *)

Lemma group_add_keys (y : Z) (a : Q) (groups : list (Z * Q)) :
  map fst (group_add y a groups) = key_insert y (map fst groups).
Proof.
  induction groups as [|[k s] rest IH]; simpl; [reflexivity|].
  destruct (y <? k)%Z; [reflexivity|].
  destruct (y =? k)%Z; simpl; [reflexivity|].
  now rewrite IH.
Qed.

Lemma groupby_keys_from (df : list FireRecord) (acc : list (Z * Q)) :
  map fst (fold_left
             (fun groups r => group_add (YEAR r) (nan_skipped (GIS_ACRES r)) groups)
             df acc)
  = fold_left (fun keys y => key_insert y keys) (map YEAR df) (map fst acc).
Proof.
  revert acc. induction df as [|r df IH]; intro acc; simpl; [reflexivity|].
  now rewrite IH, group_add_keys.
Qed.

Lemma groupby_keys (df : list FireRecord) :
  map fst (groupby_year_sum_acres df)
  = fold_left (fun keys y => key_insert y keys) (map YEAR df) [].
Proof. apply groupby_keys_from. Qed.

Lemma filter_on_fst {A B : Type} (p : A -> bool) (l : list (A * B)) :
  map fst (filter (fun row => p (fst row)) l) = filter p (map fst l).
Proof.
  induction l as [|x l IH]; simpl; [reflexivity|].
  destruct (p (fst x)); simpl; now rewrite IH.
Qed.

Lemma tot_by_year_keys (df : list FireRecord) :
  map fst (tot_by_year df)
  = filter (fun y => (1910 <? y)%Z)
           (fold_left (fun keys y => key_insert y keys) (map YEAR df) []).
Proof.
  unfold tot_by_year.
  rewrite (filter_on_fst (fun y => (1910 <? y)%Z)). now rewrite groupby_keys.
Qed.

Lemma same_but_acres_years (df df' : list FireRecord) :
  same_but_acres df df' -> map YEAR df = map YEAR df'.
Proof.
  induction 1 as [|r r' df df' [Y _] _ IH]; simpl; [reflexivity|].
  now rewrite Y, IH.
Qed.

Lemma same_but_acres_filter (code : Z) (df df' : list FireRecord) :
  same_but_acres df df' ->
  same_but_acres (filter (cause_is code) df) (filter (cause_is code) df').
Proof.
  induction 1 as [|r r' df df' [Y C] _ IH]; simpl; [constructor|].
  assert (E : cause_is code r = cause_is code r')
    by (unfold cause_is; now rewrite C).
  rewrite E. destruct (cause_is code r'); [constructor|]; auto.
Qed.

Lemma to_datetime_rows_keys (rows rows' : list (Z * Q)) :
  map fst rows = map fst rows' ->
  same_keys (to_datetime_rows rows) (to_datetime_rows rows').
Proof.
  unfold to_datetime_rows, same_keys.
  revert rows'. induction rows as [|[y a] rows IH]; intros [|[y' a'] rows'];
    simpl; try discriminate; [reflexivity|].
  intros [= <- E]. specialize (IH _ E).
  destruct (to_datetime y) as [t|e]; simpl; [|reflexivity].
  destruct (mapM _ rows) as [ts|e], (mapM _ rows') as [ts'|e']; simpl in *;
    try contradiction; congruence.
Qed.

Lemma tot_keys (cause_option : string) (df df' : list FireRecord) :
  same_but_acres df df' ->
  same_keys (tot cause_option df) (tot cause_option df').
Proof.
  intro S. unfold tot, record_filter.
  destruct (negb (cause_option =? "All")%string).
  - destruct (dict_get cause_dict cause_option) as [code|e]; simpl; [|reflexivity].
    apply to_datetime_rows_keys. rewrite !tot_by_year_keys.
    now rewrite (same_but_acres_years _ _ (same_but_acres_filter code _ _ S)).
  - simpl. apply to_datetime_rows_keys. rewrite !tot_by_year_keys.
    now rewrite (same_but_acres_years _ _ S).
Qed.

Section TestInput.

Variable adfuller : list Z -> result ADFResult.

Lemma stationarity_markdown_keys (cause_option : string) (t t' : list (Z * Q)) :
  map fst t = map fst t' ->
  stationarity_markdown adfuller cause_option t
  = stationarity_markdown adfuller cause_option t'.
Proof.
  intro E. unfold stationarity_markdown, dftest. now rewrite E.
Qed.

(** C3: the unit-root test is applied to the time-key column of [tot],
    and the burned acreage never enters it: two fire tables that differ
    only in their acreage column give the same test input, hence the same
    test outcome and the same narrative, whatever the test computes. *)
Theorem adfuller_reads_time_keys
        (cause_option : string) (df df' : list FireRecord) :
  same_but_acres df df' ->
  (forall t, dftest adfuller t = adfuller (map fst t))
  /\ (t <- tot cause_option df ;; dftest adfuller t)
     = (t <- tot cause_option df' ;; dftest adfuller t)
  /\ (t <- tot cause_option df ;; stationarity_markdown adfuller cause_option t)
     = (t <- tot cause_option df' ;; stationarity_markdown adfuller cause_option t).
Proof.
  intro S. split; [reflexivity|].
  pose proof (tot_keys cause_option _ _ S) as K. unfold same_keys in K.
  destruct (tot cause_option df) as [t|e], (tot cause_option df') as [t'|e'];
    simpl; try contradiction.
  - split; [unfold dftest; now rewrite K|].
    now apply stationarity_markdown_keys.
  - now subst.
Qed.

End TestInput.

(** C3 at the sample table and the same table with other acreages. *)
Lemma adfuller_reads_time_keys_witness :
  same_but_acres Sample.df Sample.df_other_acres
  /\ (t <- tot "Lightning" Sample.df ;;
      stationarity_markdown Sample.adfuller "Lightning" t)
     = (t <- tot "Lightning" Sample.df_other_acres ;;
        stationarity_markdown Sample.adfuller "Lightning" t).
Proof.
  assert (S : same_but_acres Sample.df Sample.df_other_acres)
    by (repeat constructor).
  split; [exact S|].
  exact (proj2 (proj2 (adfuller_reads_time_keys Sample.adfuller "Lightning" _ _ S))).
Defined.

(** ** A test that cannot run *)

(** C7, refuted: with three yearly observations the sample test raises, and
    the fire section of the script raises with it; no narrative, fallback or
    other, is produced.  Hence it is false that a failing test always leaves
    the section with something to render. *)
Lemma short_series_raises_no_fallback :
  tot "Lightning" Sample.df
  = Ok [(1451606400000000000%Z, 12%Q); (1514764800000000000%Z, 100%Q);
        (1546300800000000000%Z, 30%Q)]
  /\ fire_section Sample.adfuller 15 "Lightning" Sample.df
     = Raise (ValueError "sample size is too short to use selected regression component")
  /\ ~ (forall adfuller window cause_option df t e,
           tot cause_option df = Ok t ->
           dftest adfuller t = Raise e ->
           exists out, fire_section adfuller window cause_option df = Ok out).
Proof.
  split; [reflexivity|]. split; [reflexivity|].
  intro H.
  destruct (H Sample.adfuller 15%Z "Lightning"%string Sample.df _ _
              eq_refl eq_refl) as [out E].
  discriminate E.
Qed.

(** C7, as the script behaves: when the unit-root test raises on the series,
    the same exception leaves the script uncaught: neither the stationarity
    narrative of lines 177-193 nor anything after it is produced in that
    run, and no fallback text takes its place. *)
Theorem test_failure_propagates
        (adfuller : list Z -> result ADFResult) (window : Z)
        (cause_option : string) (df : list FireRecord)
        (t : list (Z * Q)) (e : exn) :
  tot cause_option df = Ok t ->
  dftest adfuller t = Raise e ->
  stationarity_markdown adfuller cause_option t = Raise e
  /\ fire_section adfuller window cause_option df = Raise e
  /\ forall nfdrs_window nfdrs burnt recovered,
       app adfuller window cause_option df nfdrs_window nfdrs burnt recovered
       = Raise e.
Proof.
  intros T D.
  assert (F : fire_section adfuller window cause_option df = Raise e).
  { unfold fire_section, stationarity_markdown.
    rewrite T. simpl. now rewrite D. }
  split; [|split].
  - unfold stationarity_markdown. now rewrite D.
  - exact F.
  - intros. unfold app. now rewrite F.
Qed.

Lemma test_failure_propagates_witness :
  fire_section Sample.adfuller 15 "Lightning" Sample.df
  = Raise (ValueError "sample size is too short to use selected regression component").
Proof.
  exact (proj1 (proj2 (test_failure_propagates Sample.adfuller 15 "Lightning"
                         Sample.df _ _ eq_refl eq_refl))).
Defined.

(** ** The number shown as the p-value *)

Lemma np_round_complement_fixed (p : Q) :
  (np_round (1 - p) 2 == p)%Q -> (p == 1 # 2)%Q.
Proof.
  intro E.
  pose proof (np_round_2_scaled (1 - p)) as R. rewrite E in R.
  set (k := rint ((1 - p) * 100)) in *.
  assert (C : ((1 - p) * 100 == inject_Z (100 - k))%Q).
  { unfold Zminus. rewrite inject_Z_plus, inject_Z_opp, <- R. ring. }
  pose proof (rint_comp _ _ C) as K. rewrite rint_inject_Z in K.
  fold k in K. assert (k = 50%Z) by lia. subst k.
  rewrite H in R. 
  setoid_replace p with (p * 100 / 100)%Q by field.
  rewrite R. reflexivity.
Qed.

(** C10: the third value of the narrative, printed after "p-value =", is
    [np.round(1 - pvalue, 2)] and not the p-value of the test: for a test
    p-value [p] it is a number of two decimals (a whole number of
    hundredths) at most half a hundredth away from [1 - p], and it
    coincides with [p] only at [p = 1/2]; a missing p-value is printed as
    missing.  The narrative holds nothing else of the p-value than this
    number and the label. *)
Theorem shown_pvalue_is_rounded_complement
        (adfuller : list Z -> result ADFResult) (cause_option : string)
        (tot : list (Z * Q)) (test : ADFResult) :
  dftest adfuller tot = Ok test ->
  exists text,
    stationarity_markdown adfuller cause_option tot = Ok text
    /\ text = {| text_cause := cause_option;
                 text_stationarity := stationarity (adf_pvalue test);
                 text_pvalue := np_round_float (fsub (Some 1%Q) (adf_pvalue test)) 2 |}
    /\ (adf_pvalue test = None -> text_pvalue text = None)
    /\ forall p,
        adf_pvalue test = Some p ->
        exists shown,
          text_pvalue text = Some shown
          /\ shown = np_round (1 - p) 2
          /\ (exists hundredths : Z, (shown * 100 == inject_Z hundredths)%Q)
          /\ (1 - p - (1 # 200) <= shown <= 1 - p + (1 # 200))%Q
          /\ ((shown == p)%Q -> (p == 1 # 2)%Q).
Proof.
  intro T. unfold stationarity_markdown. rewrite T. cbn [bind].
  eexists. split; [reflexivity|]. split; [reflexivity|].
  cbn [text_pvalue]. split.
  - intros ->. reflexivity.
  - intros p ->. cbn [fsub np_round_float].
    exists (np_round (1 - p) 2). split; [reflexivity|]. split; [reflexivity|].
    split; [|split].
    + exists (rint ((1 - p) * 100)). apply np_round_2_scaled.
    + apply np_round_2_close.
    + apply np_round_complement_fixed.
Qed.

(** C10 at the sample test: the p-value is 0.99 and 0.01 is shown. *)
Lemma shown_pvalue_is_rounded_complement_witness :
  exists text,
    stationarity_markdown Sample.adfuller "All" Sample.yearly = Ok text
    /\ text_pvalue text = Some (1 # 100)%Q.
Proof.
  destruct (shown_pvalue_is_rounded_complement Sample.adfuller "All" Sample.yearly
              {| adf_statistic := Some (1 # 2); adf_pvalue := Some (99 # 100) |}
              eq_refl) as [text [E [_ [_ P]]]].
  exists text. split; [exact E|].
  destruct (P (99 # 100)%Q eq_refl) as [shown [S [-> _]]]. exact S.
Defined.

(** ** The merge of burnt and recovered homes *)

Lemma key_eqb_eq (a b : option string) : key_eqb a b = true <-> a = b.
Proof.
  destruct a as [x|], b as [y|]; simpl; try (split; congruence).
  rewrite String.eqb_eq. split; congruence.
Qed.

Lemma filter_with_status (a : option string) (recovered : list (option string)) :
  filter (fun r => key_eqb a (fst r)) (with_status recovered)
  = with_status (filter (key_eqb a) recovered).
Proof.
  unfold with_status.
  induction recovered as [|x l IH]; simpl; [reflexivity|].
  destruct (key_eqb a x); simpl; now rewrite IH.
Qed.

Lemma merge_rows_for (recovered : list (option string)) (b : BurntHome) :
  List.length
    (match filter (fun r => key_eqb (b_address b) (fst r)) (with_status recovered) with
     | [] => [merged_row b None]
     | matches => map (fun r => merged_row b (Some (snd r))) matches
     end)
  = rows_for recovered b.
Proof.
  unfold rows_for. rewrite filter_with_status. unfold with_status.
  destruct (filter (key_eqb (b_address b)) recovered) as [|x l]; simpl;
    [reflexivity|].
  now rewrite !length_map.
Qed.

Lemma length_flat_map_sum {A B : Type} (f : A -> list B) (l : list A) :
  List.length (flat_map f l) = list_sum (map (fun x => List.length (f x)) l).
Proof.
  induction l as [|x l IH]; simpl; [reflexivity|].
  now rewrite length_app, IH.
Qed.

Lemma flat_map_singletons {A B : Type} (f : A -> list B) (g : A -> B) (l : list A) :
  (forall x, f x = [g x]) -> flat_map f l = map g l.
Proof.
  intro E. induction l as [|x l IH]; simpl; [reflexivity|].
  now rewrite E, IH.
Qed.

(** The row count of [homes] in general: a burnt home contributes one row,
    or as many rows as recovered homes carry its address. *)
Lemma homes_row_count (burnt : list BurntHome) (recovered : list (option string)) :
  List.length (homes burnt recovered) = list_sum (map (rows_for recovered) burnt).
Proof.
  unfold homes, merge_left. rewrite !length_map, length_flat_map_sum.
  f_equal. apply map_ext. intro b. apply merge_rows_for.
Qed.

Lemma filter_absent (a : option string) (l : list (option string)) :
  ~ In a l -> filter (key_eqb a) l = [].
Proof.
  induction l as [|x l IH]; simpl; intro N; [reflexivity|].
  destruct (key_eqb a x) eqn:E.
  - apply key_eqb_eq in E. subst x. tauto.
  - apply IH. tauto.
Qed.

Lemma existsb_absent (a : option string) (l : list (option string)) :
  ~ In a l -> existsb (key_eqb a) l = false.
Proof.
  induction l as [|x l IH]; simpl; intro N; [reflexivity|].
  destruct (key_eqb a x) eqn:E; simpl.
  - apply key_eqb_eq in E. subst x. tauto.
  - apply IH. tauto.
Qed.

Lemma filter_unique (a : option string) (l : list (option string)) :
  NoDup l ->
  filter (key_eqb a) l = if existsb (key_eqb a) l then [a] else [].
Proof.
  induction 1 as [|x l N _ IH]; simpl; [reflexivity|].
  destruct (key_eqb a x) eqn:E; simpl; [|exact IH].
  apply key_eqb_eq in E. subst x. now rewrite filter_absent.
Qed.

Lemma merge_left_unique (burnt : list BurntHome) (recovered : list (option string)) :
  NoDup recovered ->
  merge_left burnt (with_status recovered)
  = map (fun b => merged_row b (lookup_status recovered b)) burnt.
Proof.
  intro N. unfold merge_left. apply flat_map_singletons. intro b.
  rewrite filter_with_status, (filter_unique _ _ N). unfold lookup_status.
  destruct (existsb (key_eqb (b_address b)) recovered); reflexivity.
Qed.

(** C1, refuted: one burnt home whose address is listed twice among the
    recovered homes is merged into two rows, so two burnt homes give three
    rows of [homes]. *)
Lemma homes_rows_exceed_destroyed :
  List.length (homes Sample.burnt Sample.recovered_twice) = 3%nat
  /\ List.length Sample.burnt = 2%nat
  /\ ~ (forall burnt recovered,
           List.length (homes burnt recovered) = List.length burnt).
Proof.
  split; [reflexivity|]. split; [reflexivity|].
  intro H. discriminate (H Sample.burnt Sample.recovered_twice).
Qed.

(** C1, as the merge behaves: when no address occurs twice among the
    recovered homes, [homes] has exactly as many rows as the burnt table,
    whether or not addresses repeat in the burnt table. *)
Theorem homes_row_count_unique_recovered
        (burnt : list BurntHome) (recovered : list (option string)) :
  NoDup recovered ->
  List.length (homes burnt recovered) = List.length burnt.
Proof.
  intro N. unfold homes. rewrite (merge_left_unique burnt _ N).
  now rewrite !length_map.
Qed.

Lemma homes_row_count_unique_recovered_witness :
  List.length (homes (Sample.burnt ++ Sample.burnt) Sample.recovered)
  = List.length (Sample.burnt ++ Sample.burnt).
Proof.
  apply (homes_row_count_unique_recovered (Sample.burnt ++ Sample.burnt)
                                          Sample.recovered).
  constructor; [simpl; tauto|constructor].
Defined.

(** ** Sums of valuations *)

Lemma np_sum_from (col : list float) (acc : Q) :
  (fold_left (fun acc x => match x with Some q => acc + q | None => acc end)
             col acc
   == acc + np_sum col)%Q.
Proof.
  unfold np_sum. revert acc.
  induction col as [|[q|] col IH]; intro acc; simpl.
  - ring.
  - rewrite (IH (acc + q)%Q), (IH (0 + q)%Q). ring.
  - apply IH.
Qed.

Lemma np_sum_whole (col : list float) :
  Forall whole col -> (np_sum col == inject_Z (whole_sum col))%Q.
Proof.
  induction 1 as [|[q|] col W _ IH]; simpl.
  - reflexivity.
  - unfold np_sum. simpl. rewrite np_sum_from, IH, inject_Z_plus.
    simpl in W. rewrite <- W. ring.
  - exact IH.
Qed.

Lemma int_np_sum_whole (col : list float) :
  Forall whole col -> int (np_sum col) = whole_sum col.
Proof. intro W. apply int_whole. now apply np_sum_whole. Qed.

Lemma np_round_float_0_whole (x : float) : whole (np_round_float x 0).
Proof.
  destruct x as [q|]; simpl; [|exact I].
  rewrite (Qfloor_comp _ _ (np_round_0_whole q)), Qfloor_Z.
  apply np_round_0_whole.
Qed.

(** Every row of [homes] stems from a burnt home, carries its rounded
    valuation and is labelled 'recovered' or 'destroyed'. *)
Lemma homes_rows (burnt : list BurntHome) (recovered : list (option string))
      (h : Home) :
  In h (homes burnt recovered) ->
  exists b, In b burnt
            /\ address h = b_address b
            /\ zestimate h = np_round_float (b_zestimate b) 0
            /\ (status h = Some "recovered"%string
                \/ status h = Some "destroyed"%string).
Proof.
  unfold homes. rewrite map_map, in_map_iff.
  intros [m [<- M]]. unfold merge_left in M. apply in_flat_map in M.
  destruct M as [b [B M]]. exists b. split; [exact B|].
  assert (S : exists st, m = merged_row b st).
  { destruct (filter _ _) as [|r l].
    - destruct M as [<-|[]]. now exists None.
    - apply in_map_iff in M. destruct M as [r' [<- _]]. now eexists. }
  destruct S as [st ->]. unfold fill_destroyed, status_is. simpl.
  destruct st as [s|]; simpl.
  - destruct (String.eqb s "recovered") eqn:E; simpl.
    + apply String.eqb_eq in E. subst s. auto.
    + auto.
  - auto.
Qed.

(** ** The recovered share *)

Lemma recovery_markdown_raises (hs : list Home) :
  recovery_markdown hs = Raise ZeroDivisionError
  <-> (recovered_value hs + destroyed_value hs = 0)%Z.
Proof.
  unfold recovery_markdown.
  change (truediv (destroyed_value hs + recovered_value hs) 1000000000)
    with (Ok (Qred (inject_Z (destroyed_value hs + recovered_value hs)
                    / inject_Z 1000000000))).
  change (truediv (recovered_value hs) 1000000000)
    with (Ok (Qred (inject_Z (recovered_value hs) / inject_Z 1000000000))).
  cbn [bind]. unfold truediv.
  destruct (recovered_value hs + destroyed_value hs =? 0)%Z eqn:E; cbn [bind].
  - apply Z.eqb_eq in E. tauto.
  - apply Z.eqb_neq in E. split; [discriminate|contradiction].
Qed.

Lemma whole_sum_zero (col : list float) :
  Forall (fun v => v = None \/ v = Some 0%Q) col -> whole_sum col = 0%Z.
Proof.
  induction 1 as [|v col [->| ->] _ IH]; simpl; auto.
Qed.

Lemma value_by_status_zero (s : string) (burnt : list BurntHome)
      (recovered : list (option string)) :
  Forall (fun v => v = None \/ v = Some 0%Q) (rounded_input_values burnt) ->
  value_by_status s (homes burnt recovered) = 0%Z.
Proof.
  intro Z0. unfold value_by_status.
  assert (F : Forall (fun v => v = None \/ v = Some 0%Q)
                (map zestimate (filter (status_is s) (homes burnt recovered)))).
  { column_cell h H. apply filter_In in H. destruct H as [H _].
    destruct (homes_rows _ _ _ H) as [b [B [_ [Z _]]]]. rewrite Z.
    rewrite Forall_forall in Z0. apply Z0. unfold rounded_input_values.
    apply in_map_iff. now exists b. }
  rewrite int_np_sum_whole.
  - now apply whole_sum_zero.
  - eapply Forall_impl; [|exact F]. intros v [->| ->]; simpl; [exact I|reflexivity].
Qed.

(** C9: the share [recovered_value / (recovered_value + destroyed_value)] is
    an unguarded division: the closing narrative raises ZeroDivisionError
    exactly when the two sums add up to zero, which is the case for an empty
    burnt table and for a burnt table whose valuations all round to zero (or
    are missing). *)
Theorem recovered_share_division_by_zero :
  (forall hs, recovery_markdown hs = Raise ZeroDivisionError
              <-> (recovered_value hs + destroyed_value hs = 0)%Z)
  /\ (forall recovered, recovery_section [] recovered = Raise ZeroDivisionError)
  /\ (forall burnt recovered,
         Forall (fun v => v = None \/ v = Some 0%Q) (rounded_input_values burnt) ->
         recovery_section burnt recovered = Raise ZeroDivisionError).
Proof.
  split; [exact recovery_markdown_raises|]. split.
  - intro recovered. reflexivity.
  - intros burnt recovered Z0. unfold recovery_section.
    assert (E : recovery_markdown (homes burnt recovered) = Raise ZeroDivisionError).
    { apply recovery_markdown_raises. unfold recovered_value, destroyed_value.
      now rewrite !value_by_status_zero. }
    now rewrite E.
Qed.

Lemma recovered_share_division_by_zero_witness :
  recovery_section Sample.burnt_worthless Sample.recovered = Raise ZeroDivisionError.
Proof.
  apply (proj2 (proj2 recovered_share_division_by_zero)
               Sample.burnt_worthless Sample.recovered).
  repeat constructor; right; reflexivity.
Defined.

(** ** The yearly aggregation *)

Lemma key_insert_In (x y : Z) (keys : list Z) :
  In x (key_insert y keys) <-> x = y \/ In x keys.
Proof.
  induction keys as [|k rest IH]; simpl.
  - intuition congruence.
  - destruct (y <? k)%Z eqn:L; [simpl; intuition congruence|].
    destruct (y =? k)%Z eqn:E; simpl.
    + apply Z.eqb_eq in E. intuition congruence.
    + rewrite IH. intuition congruence.
Qed.

Lemma key_insert_sorted (y : Z) (keys : list Z) :
  StronglySorted Z.lt keys -> StronglySorted Z.lt (key_insert y keys).
Proof.
  induction 1 as [|k rest S IH F]; simpl.
  - repeat constructor.
  - destruct (y <? k)%Z eqn:L.
    + apply Z.ltb_lt in L. constructor; [now constructor|].
      constructor; [exact L|].
      eapply Forall_impl; [|exact F]. intros; lia.
    + destruct (y =? k)%Z eqn:E; [now constructor|].
      apply Z.ltb_ge in L. apply Z.eqb_neq in E.
      constructor; [exact IH|].
      apply Forall_forall. intros x X. apply key_insert_In in X.
      destruct X as [->|X]; [lia|].
      rewrite Forall_forall in F. now apply F.
Qed.

Lemma key_inserts_sorted (ys keys : list Z) :
  StronglySorted Z.lt keys ->
  StronglySorted Z.lt (fold_left (fun ks y => key_insert y ks) ys keys).
Proof.
  revert keys. induction ys as [|y ys IH]; intros keys S; simpl; [exact S|].
  apply IH. now apply key_insert_sorted.
Qed.

Lemma key_inserts_In (x : Z) (ys keys : list Z) :
  In x (fold_left (fun ks y => key_insert y ks) ys keys) <-> In x keys \/ In x ys.
Proof.
  revert keys. induction ys as [|y ys IH]; intro keys; simpl.
  - intuition.
  - rewrite IH, key_insert_In. intuition.
Qed.

Lemma strictly_increasing_filter (p : Z -> bool) (keys : list Z) :
  StronglySorted Z.lt keys -> StronglySorted Z.lt (filter p keys).
Proof.
  induction 1 as [|k rest S IH F]; simpl; [constructor|].
  destruct (p k); [|exact IH].
  constructor; [exact IH|].
  apply Forall_forall. intros x X. apply filter_In in X.
  rewrite Forall_forall in F. now apply F.
Qed.

Lemma strictly_increasing_NoDup (keys : list Z) :
  StronglySorted Z.lt keys -> NoDup keys.
Proof.
  induction 1 as [|k rest S IH F]; constructor; [|exact IH].
  intro X. rewrite Forall_forall in F. specialize (F _ X). lia.
Qed.

(** The groups of line 136: one per year present, in increasing order. *)
Lemma groupby_keys_sorted (df : list FireRecord) :
  StronglySorted Z.lt (map fst (groupby_year_sum_acres df)).
Proof. rewrite groupby_keys. apply key_inserts_sorted. constructor. Qed.

Lemma groupby_keys_In (y : Z) (df : list FireRecord) :
  In y (map fst (groupby_year_sum_acres df)) <-> exists r, In r df /\ YEAR r = y.
Proof.
  rewrite groupby_keys, key_inserts_In, in_map_iff. simpl. split.
  - intros [[]|[r [Y R]]]. now exists r.
  - intros [r [R Y]]. right. now exists r.
Qed.

(** *** Timestamps *)

Lemma days_to_jan1_increasing (y1 y2 : Z) :
  (y1 < y2)%Z -> (days_to_jan1 y1 < days_to_jan1 y2)%Z.
Proof. unfold days_to_jan1. intro L. Z.to_euclidean_division_equations. lia. Qed.

Lemma to_datetime_increasing (y1 y2 t1 t2 : Z) :
  (y1 < y2)%Z -> to_datetime y1 = Ok t1 -> to_datetime y2 = Ok t2 -> (t1 < t2)%Z.
Proof.
  unfold to_datetime. intros L.
  destruct (_ && _); [|discriminate]. destruct (_ && _); [|discriminate].
  destruct (_ && _); [|discriminate]. destruct (_ && _); [|discriminate].
  intros [= <-] [= <-]. apply days_to_jan1_increasing in L.
  unfold ns_per_day. lia.
Qed.

Lemma to_datetime_total (y : Z) :
  (1910 < y <= 2262)%Z -> exists t, to_datetime y = Ok t.
Proof.
  intros [L U]. unfold to_datetime.
  assert (B : ((1000 <=? y) && (y <=? 9999))%Z = true)
    by (apply andb_true_intro; split; apply Z.leb_le; lia).
  rewrite B.
  assert (D1 : (days_to_jan1 1910 < days_to_jan1 y)%Z)
    by now apply days_to_jan1_increasing.
  assert (D2 : (days_to_jan1 y <= days_to_jan1 2262)%Z).
  { destruct (Z.eq_dec y 2262) as [->|N]; [lia|].
    apply Z.lt_le_incl, days_to_jan1_increasing. lia. }
  change (days_to_jan1 1910) with (-21915)%Z in D1.
  change (days_to_jan1 2262) with 106651%Z in D2.
  assert (R : ((- 2 ^ 63 <? days_to_jan1 y * ns_per_day)
               && (days_to_jan1 y * ns_per_day <? 2 ^ 63))%Z = true).
  { apply andb_true_intro. unfold ns_per_day.
    change (2 ^ 63)%Z with 9223372036854775808%Z.
    split; apply Z.ltb_lt; lia. }
  rewrite R. now eexists.
Qed.

Lemma to_datetime_rows_ok (rows t : list (Z * Q)) :
  to_datetime_rows rows = Ok t ->
  Forall2 (fun r r' => to_datetime (fst r) = Ok (fst r') /\ snd r' = snd r) rows t.
Proof.
  unfold to_datetime_rows. revert t.
  induction rows as [|[y a] rows IH]; intro t; simpl.
  - intros [= <-]. constructor.
  - destruct (to_datetime y) as [ns|e] eqn:T; simpl; [|discriminate].
    destruct (mapM _ rows) as [ts|e]; simpl; [|discriminate].
    intros [= <-]. constructor; [now split|]. now apply IH.
Qed.

Lemma to_datetime_rows_total (rows : list (Z * Q)) :
  Forall (fun y => (1910 < y <= 2262)%Z) (map fst rows) ->
  exists t, to_datetime_rows rows = Ok t.
Proof.
  unfold to_datetime_rows.
  induction rows as [|[y a] rows IH]; simpl; intro F.
  - now eexists.
  - inversion F as [|? ? Y F']; subst.
    destruct (to_datetime_total y Y) as [ns ->].
    destruct (IH F') as [ts ->]. simpl. now eexists.
Qed.

Lemma to_datetime_rows_increasing (rows t : list (Z * Q)) :
  to_datetime_rows rows = Ok t ->
  StronglySorted Z.lt (map fst rows) ->
  StronglySorted Z.lt (map fst t).
Proof.
  intro T. apply to_datetime_rows_ok in T.
  induction T as [|r r' rows t [D _] R IH]; simpl; intro S; [constructor|].
  inversion S as [|? ? S' F]; subst.
  constructor; [now apply IH|].
  clear IH S S'. induction R as [|q q' rows t [D' _] R IH]; simpl; [constructor|].
  inversion F as [|? ? L F']; subst.
  constructor; [|now apply IH].
  exact (to_datetime_increasing _ _ _ _ L D D').
Qed.

Lemma to_datetime_rows_values (rows t : list (Z * Q)) :
  to_datetime_rows rows = Ok t -> map snd t = map snd rows.
Proof.
  intro T. apply to_datetime_rows_ok in T.
  induction T as [|r r' rows t [_ V] _ IH]; simpl; [reflexivity|].
  now rewrite V, IH.
Qed.

Lemma tot_by_year_In (y : Z) (s : Q) (df : list FireRecord) :
  In (y, s) (tot_by_year df)
  <-> In (y, s) (groupby_year_sum_acres df) /\ (1910 < y)%Z.
Proof.
  unfold tot_by_year. rewrite filter_In. simpl. now rewrite Z.ltb_lt.
Qed.

Lemma tot_by_year_keys_In (y : Z) (df : list FireRecord) :
  In y (map fst (tot_by_year df))
  <-> (exists r, In r df /\ YEAR r = y) /\ (1910 < y)%Z.
Proof.
  unfold tot_by_year. rewrite (filter_on_fst (fun y => (1910 <? y)%Z)).
  now rewrite filter_In, groupby_keys_In, Z.ltb_lt.
Qed.

Lemma tot_by_year_sorted (df : list FireRecord) :
  StronglySorted Z.lt (map fst (tot_by_year df)).
Proof.
  unfold tot_by_year. rewrite (filter_on_fst (fun y => (1910 <? y)%Z)).
  apply strictly_increasing_filter, groupby_keys_sorted.
Qed.

(** C6: for the records [df'] that pass the cause filter, the yearly series
    has strictly increasing keys, each once; a year is a key of the series
    exactly when some record of [df'] has it and it is greater than 1910,
    and a kept group keeps its sum.  The timestamps that line 141 puts in
    place of the years are strictly increasing and distinct as well, and
    the table [tot] exists whenever no year lies beyond 2262. *)
Theorem tot_keys_increasing_above_1910
        (cause_option : string) (df df' : list FireRecord) :
  record_filter cause_option df = Ok df' ->
  StronglySorted Z.lt (map fst (tot_by_year df'))
  /\ NoDup (map fst (tot_by_year df'))
  /\ (forall y, In y (map fst (tot_by_year df'))
                <-> (exists r, In r df' /\ YEAR r = y) /\ (1910 < y)%Z)
  /\ (forall y s, In (y, s) (tot_by_year df')
                  <-> In (y, s) (groupby_year_sum_acres df') /\ (1910 < y)%Z)
  /\ (forall t, tot cause_option df = Ok t ->
                StronglySorted Z.lt (map fst t)
                /\ NoDup (map fst t)
                /\ map snd t = map snd (tot_by_year df'))
  /\ ((forall r, In r df' -> (YEAR r <= 2262)%Z) ->
      exists t, tot cause_option df = Ok t).
Proof.
  intro F.
  pose proof (tot_by_year_sorted df') as S.
  split; [exact S|]. split; [now apply strictly_increasing_NoDup|].
  split; [intro y; apply tot_by_year_keys_In|].
  split; [intros y s; apply tot_by_year_In|].
  unfold tot. rewrite F. simpl. split.
  - intros t T.
    pose proof (to_datetime_rows_increasing _ _ T S) as S'.
    split; [exact S'|]. split; [now apply strictly_increasing_NoDup|].
    now apply to_datetime_rows_values.
  - intro U. apply to_datetime_rows_total.
    apply Forall_forall. intros y Y. apply tot_by_year_keys_In in Y.
    destruct Y as [[r [R <-]] L]. split; [exact L|]. now apply U.
Qed.

Lemma tot_keys_increasing_above_1910_witness :
  StronglySorted Z.lt (map fst (tot_by_year (filter (cause_is 1) Sample.df)))
  /\ tot "Lightning" Sample.df
     = Ok [(1451606400000000000%Z, 12%Q); (1514764800000000000%Z, 100%Q);
           (1546300800000000000%Z, 30%Q)].
Proof.
  split.
  - exact (proj1 (tot_keys_increasing_above_1910 "Lightning" Sample.df
                    (filter (cause_is 1) Sample.df) eq_refl)).
  - reflexivity.
Defined.

(** ** The rolling mean *)

Lemma filter_seq_between (p : nat -> bool) (lo hi s n : nat) :
  (forall j, p j = true <-> (lo <= j < hi)%nat) ->
  filter p (seq s n) = seq (Nat.max lo s) (Nat.min hi (s + n) - Nat.max lo s).
Proof.
  intro P. revert s. induction n as [|n IH]; intro s; simpl.
  - replace (Nat.min hi (s + 0) - Nat.max lo s)%nat with 0%nat by lia. reflexivity.
  - rewrite IH. destruct (p s) eqn:E.
    + apply P in E.
      replace (Nat.max lo s) with s by lia.
      replace (Nat.min hi (s + S n) - s)%nat
        with (S (Nat.min hi (S s + n) - Nat.max lo (S s)))%nat by lia.
      simpl. f_equal. f_equal. lia.
    + assert (N : ~ (lo <= s < hi)%nat) by (rewrite <- P; congruence).
      destruct (Nat.lt_ge_cases s lo) as [L|L].
      * f_equal; lia.
      * replace (Nat.min hi (S s + n) - Nat.max lo (S s))%nat with 0%nat by lia.
        replace (Nat.min hi (s + S n) - Nat.max lo s)%nat with 0%nat by lia.
        reflexivity.
Qed.

Lemma slice_as_nth {A : Type} (d : A) (l : list A) (lo k : nat) :
  (lo + k <= List.length l)%nat ->
  Vega.slice lo (lo + k) l = map (fun j => nth j l d) (seq lo k).
Proof.
  unfold Vega.slice. replace (lo + k - lo)%nat with k by lia.
  revert lo k. induction l as [|x l IH]; intros lo k B; simpl in B.
  - assert (lo = 0%nat) by lia. assert (k = 0%nat) by lia. now subst.
  - destruct lo as [|lo].
    + destruct k as [|k]; [reflexivity|].
      simpl. f_equal. rewrite <- seq_shift, map_map. simpl.
      apply (IH 0%nat k). lia.
    + rewrite <- seq_shift, map_map. simpl. apply IH. lia.
Qed.

Lemma slice_map {A B : Type} (f : A -> B) (i0 i1 : nat) (l : list A) :
  map f (Vega.slice i0 i1 l) = Vega.slice i0 i1 (map f l).
Proof. unfold Vega.slice. now rewrite skipn_map, firstn_map. Qed.

Lemma nth_error_combine_seq {A : Type} (l : list A) (s i : nat) (x : A) :
  nth_error l i = Some x ->
  nth_error (combine (seq s (List.length l)) l) i = Some ((s + i)%nat, x).
Proof.
  revert s i. induction l as [|y l IH]; intros s [|i]; simpl; try discriminate.
  - intros [= ->]. now rewrite Nat.add_0_r.
  - intro E. rewrite (IH (S s) i E). f_equal. f_equal. lia.
Qed.

Lemma map_snd_combine_seq {A : Type} (l : list A) (s : nat) :
  map snd (combine (seq s (List.length l)) l) = l.
Proof.
  revert s. induction l as [|y l IH]; intro s; simpl; [reflexivity|].
  now rewrite IH.
Qed.

(** The frame of row [i] is the index range of the specification. *)
Lemma clipped_window_frame (n i : nat) (windowBefore windowAfter : Z) :
  (0 <= windowBefore)%Z -> (0 <= windowAfter)%Z -> (i < n)%nat ->
  let (i0, i1) := Vega.set_window (Some (- windowBefore)%Z, Some windowAfter) i n in
  (i0 <= i < i1)%nat /\ (i1 <= n)%nat
  /\ clipped_window n i windowBefore windowAfter = seq i0 (i1 - i0).
Proof.
  intros B A L. unfold Vega.set_window. cbn [fst snd].
  set (i0 := Z.to_nat (Z.max 0 (Z.of_nat i - Z.abs (- windowBefore)))).
  set (i1 := Z.to_nat (Z.min (Z.of_nat n) (Z.of_nat i + Z.abs windowAfter + 1))).
  assert (I0 : (i0 <= i)%nat) by (unfold i0; lia).
  assert (I1 : (i < i1 <= n)%nat) by (unfold i1; lia).
  split; [lia|]. split; [lia|].
  unfold clipped_window.
  rewrite (filter_seq_between _ i0 i1).
  - f_equal; lia.
  - intro j. rewrite andb_true_iff, !Z.leb_le. unfold i0, i1. lia.
Qed.

Lemma clipped_window_In (n i j : nat) (windowBefore windowAfter : Z) :
  In j (clipped_window n i windowBefore windowAfter)
  <-> (Z.max 0 (Z.of_nat i - windowBefore) <= Z.of_nat j
       <= Z.min (Z.of_nat n - 1) (Z.of_nat i + windowAfter))%Z.
Proof.
  unfold clipped_window. rewrite filter_In, in_seq, andb_true_iff, !Z.leb_le. lia.
Qed.

Lemma agg_mean_defined (vs : list Q) :
  vs <> [] -> Vega.agg_mean vs = Some (arithmetic_mean vs).
Proof. destruct vs; [congruence|reflexivity]. Qed.

Lemma rolling_mean_at {K : Type} (series : list (K * Q))
      (windowBefore windowAfter : Z) (i : nat) :
  (0 <= windowBefore)%Z -> (0 <= windowAfter)%Z ->
  (i < List.length series)%nat ->
  nth_error (map snd (rolling_smoother windowBefore windowAfter series)) i
  = Some (Some (arithmetic_mean
                  (values_at series
                     (clipped_window (List.length series) i
                                     windowBefore windowAfter)))).
Proof.
  intros B A L.
  destruct (nth_error series i) as [row|] eqn:R;
    [|apply nth_error_None in R; lia].
  unfold rolling_smoother, Vega.rolling_mean_line, Vega.transform_window_mean.
  rewrite !map_map, nth_error_map, (nth_error_combine_seq series 0 i row R).
  cbn [option_map fst snd Nat.add].
  pose proof (clipped_window_frame (List.length series) i windowBefore
                windowAfter B A L) as W.
  destruct (Vega.set_window _ i (List.length series)) as [i0 i1].
  destruct W as [I [U W]]. cbn [snd]. rewrite W, slice_map.
  replace i1 with (i0 + (i1 - i0))%nat at 1 by lia.
  rewrite (slice_as_nth 0%Q (map snd series)) by (rewrite length_map; lia).
  fold (values_at series (seq i0 (i1 - i0))).
  rewrite agg_mean_defined; [reflexivity|].
  destruct (i1 - i0)%nat eqn:E; [lia|discriminate].
Qed.

Lemma rolling_smoother_length {K : Type} (series : list (K * Q))
      (windowBefore windowAfter : Z) :
  List.length (rolling_smoother windowBefore windowAfter series)
  = List.length series.
Proof.
  unfold rolling_smoother, Vega.rolling_mean_line, Vega.transform_window_mean.
  rewrite !length_map, length_combine, length_seq. apply Nat.min_id.
Qed.

Lemma rolling_smoother_keys {K : Type} (series : list (K * Q))
      (windowBefore windowAfter : Z) :
  map fst (rolling_smoother windowBefore windowAfter series) = map fst series.
Proof.
  unfold rolling_smoother, Vega.rolling_mean_line, Vega.transform_window_mean.
  transitivity (map fst (map snd (combine (seq 0 (List.length series)) series)));
    [|now rewrite map_snd_combine_seq].
  rewrite !map_map. apply map_ext. intros [i row]. cbn [fst snd].
  now destruct (Vega.set_window _ i (List.length series)).
Qed.

Lemma rolling_smoother_nth {K : Type} (series : list (K * Q))
      (windowBefore windowAfter : Z) (i : nat) (k : K) (v : Q) :
  (0 <= windowBefore)%Z -> (0 <= windowAfter)%Z ->
  nth_error series i = Some (k, v) ->
  nth_error (rolling_smoother windowBefore windowAfter series) i
  = Some (k, Some (arithmetic_mean
                     (values_at series
                        (clipped_window (List.length series) i
                                        windowBefore windowAfter)))).
Proof.
  intros B A R.
  assert (L : (i < List.length series)%nat)
    by (apply nth_error_Some; congruence).
  pose proof (rolling_mean_at series windowBefore windowAfter i B A L) as V.
  pose proof (rolling_smoother_keys series windowBefore windowAfter) as E.
  apply (f_equal (fun l => nth_error l i)) in E.
  rewrite !nth_error_map, R in E. rewrite nth_error_map in V.
  destruct (nth_error (rolling_smoother windowBefore windowAfter series) i)
    as [[k' m]|]; simpl in *; [|discriminate].
  congruence.
Qed.

(** C5: the two smoothers of the script, the trailing mean [line_smooth]
    of the fire chart with [window] rows before and none after, and the
    symmetric mean [nfdrs_smooth] of the climate chart with [nfdrs_window]
    rows on either side, and the transform with any window sizes
    [windowBefore, windowAfter >= 0], return a series of the length of their
    input, the empty series included, whose row at each index [i] has the
    key of the input row and a defined value: the arithmetic mean of the
    input values at the indices [j] with
    [max(0, i - windowBefore) <= j <= min(length - 1, i + windowAfter)],
    each taken once.  The trailing smoother of window 1 maps
    [(2017,10),(2018,20),(2019,30)] to [(2017,10),(2018,15),(2019,25)]. *)
Theorem rolling_smoother_clipped_mean {K : Type}
        (window nfdrs_window windowBefore windowAfter : Z)
        (tot : list (Z * Q)) (nfdrs series : list (K * Q)) :
  (0 <= window)%Z -> (0 <= nfdrs_window)%Z ->
  (0 <= windowBefore)%Z -> (0 <= windowAfter)%Z ->
  (forall n i before after,
      NoDup (clipped_window n i before after)
      /\ forall j, In j (clipped_window n i before after)
                   <-> (Z.max 0 (Z.of_nat i - before) <= Z.of_nat j
                        <= Z.min (Z.of_nat n - 1) (Z.of_nat i + after))%Z)
  /\ (List.length (line_smooth window tot) = List.length tot
      /\ forall i k v,
          nth_error tot i = Some (k, v) ->
          nth_error (line_smooth window tot) i
          = Some (k, Some (arithmetic_mean
                             (values_at tot
                                (clipped_window (List.length tot) i window 0)))))
  /\ (List.length (nfdrs_smooth nfdrs_window nfdrs) = List.length nfdrs
      /\ forall i k v,
          nth_error nfdrs i = Some (k, v) ->
          nth_error (nfdrs_smooth nfdrs_window nfdrs) i
          = Some (k, Some (arithmetic_mean
                             (values_at nfdrs
                                (clipped_window (List.length nfdrs) i
                                                nfdrs_window nfdrs_window)))))
  /\ (List.length (rolling_smoother windowBefore windowAfter series)
      = List.length series
      /\ forall i k v,
          nth_error series i = Some (k, v) ->
          nth_error (rolling_smoother windowBefore windowAfter series) i
          = Some (k, Some (arithmetic_mean
                             (values_at series
                                (clipped_window (List.length series) i
                                                windowBefore windowAfter)))))
  /\ line_smooth 1 Sample.series
     = [(2017%Z, Some 10%Q); (2018%Z, Some 15%Q); (2019%Z, Some 25%Q)].
Proof.
  intros W N B A.
  split; [|split; [|split; [|split; [|reflexivity]]]].
  - intros n i before after.
    split; [apply NoDup_filter, seq_NoDup|intro j; apply clipped_window_In].
  - split; [apply (rolling_smoother_length tot window 0)|].
    intros i k v R.
    exact (rolling_smoother_nth tot window 0 i k v W (Z.le_refl 0) R).
  - split; [apply (rolling_smoother_length nfdrs nfdrs_window nfdrs_window)|].
    intros i k v R.
    exact (rolling_smoother_nth nfdrs nfdrs_window nfdrs_window i k v N N R).
  - split; [apply rolling_smoother_length|].
    intros i k v R.
    exact (rolling_smoother_nth series windowBefore windowAfter i k v B A R).
Qed.

Lemma rolling_smoother_clipped_mean_witness :
  nth_error (line_smooth 15 Sample.yearly) 3
  = Some (1577836800000000000%Z, Some (50 # 1)%Q)
  /\ nth_error (nfdrs_smooth 1 Sample.yearly) 3
     = Some (1577836800000000000%Z, Some (19 # 1)%Q)
  /\ List.length (rolling_smoother 2 1 Sample.yearly) = 4%nat.
Proof.
  destruct (rolling_smoother_clipped_mean (K := Z) 15 1 2 1
              Sample.yearly Sample.yearly Sample.yearly)
    as [_ [[_ T] [[_ S] [[L _] _]]]]; try (intro; discriminate).
  split; [|split].
  - exact (T 3%nat _ _ eq_refl).
  - exact (S 3%nat _ _ eq_refl).
  - exact L.
Defined.

(* ================================================================= *)
(** * Further properties of the script *)

(** ** The cause select box and the cause filter *)

Lemma dict_get_known (d : list (string * Z)) (name : string) :
  In name (map fst d) -> exists v, dict_get d name = Ok v /\ In (name, v) d.
Proof.
  induction d as [|[k v] d IH]; simpl; [tauto|].
  destruct (String.eqb k name) eqn:E.
  - apply String.eqb_eq in E. subst k. intros _. exists v. auto.
  - intros [->|H]; [rewrite String.eqb_refl in E; discriminate|].
    destruct (IH H) as [v' [G I]]. exists v'. auto.
Qed.

Lemma dict_get_unknown (d : list (string * Z)) (name : string) :
  ~ In name (map fst d) -> dict_get d name = Raise (KeyError name).
Proof.
  induction d as [|[k v] d IH]; simpl; [reflexivity|]. intro N.
  destruct (String.eqb k name) eqn:E.
  - apply String.eqb_eq in E. tauto.
  - apply IH. tauto.
Qed.

Lemma dict_get_In (d : list (string * Z)) (name : string) (v : Z) :
  dict_get d name = Ok v -> In (name, v) d.
Proof.
  induction d as [|[k w] d IH]; simpl; [discriminate|].
  destruct (String.eqb k name) eqn:E.
  - apply String.eqb_eq in E. intros [= <-]. subst. auto.
  - auto.
Qed.

Lemma record_filter_named (cause_option : string) (df : list FireRecord) :
  cause_option <> "All"%string ->
  record_filter cause_option df
  = (code <- dict_get cause_dict cause_option ;; Ok (filter (cause_is code) df)).
Proof.
  intro N. unfold record_filter.
  destruct (String.eqb cause_option "All") eqn:E; [|reflexivity].
  apply String.eqb_eq in E. contradiction.
Qed.

Lemma cause_is_true (code : Z) (r : FireRecord) :
  cause_is code r = true <-> CAUSE r = Some code.
Proof.
  unfold cause_is. destruct (CAUSE r) as [c|]; [|split; discriminate].
  rewrite Z.eqb_eq. split; congruence.
Qed.

(** X1: the cause filter returns a table exactly for the entries of the
    select box; for any other name the dictionary lookup raises KeyError
    with that name. *)
Theorem record_filter_defined_on_choices
        (cause_option : string) (df : list FireRecord) :
  match record_filter cause_option df with
  | Ok _ => In cause_option cause_choices
  | Raise e => e = KeyError cause_option /\ ~ In cause_option cause_choices
  end.
Proof.
  destruct (String.eqb cause_option "All") eqn:A.
  - apply String.eqb_eq in A. subst. simpl. auto.
  - assert (N : cause_option <> "All"%string) by (now apply String.eqb_neq).
    rewrite (record_filter_named _ df N).
    destruct (in_dec string_dec cause_option (map fst cause_dict)) as [I|I].
    + destruct (dict_get_known _ _ I) as [v [-> _]]. cbn [bind]. now right.
    + rewrite (dict_get_unknown _ _ I). cbn [bind]. split; [reflexivity|].
      intros [E|E]; [congruence|contradiction].
Qed.

(** X2: for a named cause the filter keeps, in the order of the table,
    exactly the records whose cause code is the code of that name; a record
    without a cause code is kept under no name. *)
Theorem record_filter_selects_code
        (cause_option : string) (df df' : list FireRecord) :
  cause_option <> "All"%string ->
  record_filter cause_option df = Ok df' ->
  exists code,
    In (cause_option, code) cause_dict
    /\ df' = filter (cause_is code) df
    /\ (forall r, In r df' <-> In r df /\ CAUSE r = Some code)
    /\ (forall r, In r df' -> CAUSE r <> None).
Proof.
  intros N. rewrite (record_filter_named _ df N).
  destruct (dict_get cause_dict cause_option) as [code|e] eqn:G; [|discriminate].
  cbn [bind]. intros [= <-]. exists code.
  split; [now apply dict_get_In|]. split; [reflexivity|].
  assert (M : forall r, In r (filter (cause_is code) df)
                        <-> In r df /\ CAUSE r = Some code)
    by (intro r; now rewrite filter_In, cause_is_true).
  split; [exact M|]. intros r R. apply M in R. destruct R as [_ C]. congruence.
Qed.

Lemma record_filter_selects_code_witness :
  exists code,
    In ("Lightning"%string, code) cause_dict
    /\ filter (cause_is 1) Sample.df = filter (cause_is code) Sample.df
    /\ (forall r, In r (filter (cause_is 1) Sample.df)
                  <-> In r Sample.df /\ CAUSE r = Some code)
    /\ (forall r, In r (filter (cause_is 1) Sample.df) -> CAUSE r <> None).
Proof.
  apply (record_filter_selects_code "Lightning" Sample.df
           (filter (cause_is 1) Sample.df)).
  - discriminate.
  - reflexivity.
Defined.

Lemma values_distinct_keys {A B : Type} (d : list (A * B)) (k1 k2 : A) (v : B) :
  NoDup (map snd d) -> In (k1, v) d -> In (k2, v) d -> k1 = k2.
Proof.
  induction d as [|[k w] d IH]; simpl; [tauto|]. intro N.
  inversion N as [|? ? X N']; subst.
  intros [E1|I1] [E2|I2].
  - congruence.
  - injection E1 as <- <-. contradiction X. apply in_map_iff. now exists (k2, w).
  - injection E2 as <- <-. contradiction X. apply in_map_iff. now exists (k1, w).
  - now apply IH.
Qed.

Lemma cause_codes_NoDup : NoDup (map snd cause_dict).
Proof.
  unfold cause_dict. simpl.
  repeat (constructor; [simpl; intuition discriminate|]). constructor.
Qed.

Lemma cause_codes_distinct (c1 c2 : string) (code : Z) :
  In (c1, code) cause_dict -> In (c2, code) cause_dict -> c1 = c2.
Proof. apply values_distinct_keys, cause_codes_NoDup. Qed.

(** X3: two different named causes select disjoint sets of records: no fire
    is counted under two causes. *)
Theorem named_causes_disjoint
        (c1 c2 : string) (df d1 d2 : list FireRecord) :
  c1 <> "All"%string -> c2 <> "All"%string -> c1 <> c2 ->
  record_filter c1 df = Ok d1 ->
  record_filter c2 df = Ok d2 ->
  forall r, In r d1 -> ~ In r d2.
Proof.
  intros N1 N2 D.
  rewrite (record_filter_named _ df N1), (record_filter_named _ df N2).
  destruct (dict_get cause_dict c1) as [k1|] eqn:G1; [|discriminate].
  destruct (dict_get cause_dict c2) as [k2|] eqn:G2; [|discriminate].
  cbn [bind]. intros [= <-] [= <-] r R1 R2.
  apply filter_In in R1, R2. destruct R1 as [_ R1], R2 as [_ R2].
  apply cause_is_true in R1, R2.
  assert (k1 = k2) by congruence. subst k2.
  apply D. eapply cause_codes_distinct; eapply dict_get_In; eassumption.
Qed.

Lemma named_causes_disjoint_witness :
  In (Sample.fire 2019 1 30) (filter (cause_is 1) Sample.df)
  /\ ~ In (Sample.fire 2019 1 30) (filter (cause_is 9) Sample.df).
Proof.
  assert (I : In (Sample.fire 2019 1 30) (filter (cause_is 1) Sample.df))
    by (simpl; auto).
  split; [exact I|].
  apply (named_causes_disjoint "Lightning" "Miscellaneous" Sample.df
           (filter (cause_is 1) Sample.df) (filter (cause_is 9) Sample.df));
    solve [discriminate | reflexivity | exact I].
Defined.

(** ** The sums of the yearly aggregation *)

Lemma group_total_add (y y' : Z) (a : Q) (groups : list (Z * Q)) :
  (group_total y (group_add y' a groups)
   == group_total y groups + (if (y' =? y)%Z then a else 0))%Q.
Proof.
  unfold group_total.
  induction groups as [|[k s] rest IH]; simpl.
  - destruct (y' =? y)%Z; simpl; ring.
  - destruct (y' <? k)%Z eqn:L; [|destruct (y' =? k)%Z eqn:E].
    + simpl. destruct (y' =? y)%Z, (k =? y)%Z; simpl; ring.
    + apply Z.eqb_eq in E. subst k. simpl.
      destruct (y' =? y)%Z; simpl; ring.
    + simpl. destruct (k =? y)%Z; simpl; rewrite IH; ring.
Qed.

Lemma groupby_total_from (y : Z) (df : list FireRecord) (acc : list (Z * Q)) :
  (group_total y
     (fold_left (fun groups r => group_add (YEAR r) (nan_skipped (GIS_ACRES r)) groups)
                df acc)
   == group_total y acc + acres_in_year df y)%Q.
Proof.
  unfold acres_in_year. revert acc.
  induction df as [|r df IH]; intro acc; simpl.
  - ring.
  - rewrite IH, group_total_add.
    destruct (YEAR r =? y)%Z; simpl; unfold acres_of; ring.
Qed.

Lemma group_total_unique (y : Z) (s : Q) (groups : list (Z * Q)) :
  NoDup (map fst groups) -> In (y, s) groups -> (group_total y groups == s)%Q.
Proof.
  unfold group_total.
  induction groups as [|[k v] rest IH]; simpl; [tauto|]. intro N.
  inversion N as [|? ? X N']; subst. intros [E|I].
  - injection E as -> ->. rewrite Z.eqb_refl. simpl.
    assert (F : filter (fun g => (fst g =? y)%Z) rest = []).
    { clear IH N N'. induction rest as [|[k' v'] rest IH]; simpl; [reflexivity|].
      simpl in X. destruct (k' =? y)%Z eqn:E.
      - apply Z.eqb_eq in E. tauto.
      - apply IH. tauto. }
    rewrite F. simpl. ring.
  - destruct (k =? y)%Z eqn:E.
    + apply Z.eqb_eq in E. subst k. contradiction X.
      apply in_map_iff. now exists (y, s).
    + now apply IH.
Qed.

Lemma groupby_sum_of_group (df : list FireRecord) (y : Z) (s : Q) :
  In (y, s) (groupby_year_sum_acres df) -> (s == acres_in_year df y)%Q.
Proof.
  intro I.
  rewrite <- (group_total_unique y s (groupby_year_sum_acres df)).
  - unfold groupby_year_sum_acres. rewrite groupby_total_from.
    unfold group_total. simpl. ring.
  - apply strictly_increasing_NoDup, groupby_keys_sorted.
  - exact I.
Qed.

(** X4: every row of the yearly table [tot_by_year] holds a year above 1910
    and the sum of the burned acreage of exactly the records of that year,
    a missing acreage counting as nothing. *)
Theorem yearly_sum_is_sum_of_year (df : list FireRecord) (y : Z) (s : Q) :
  In (y, s) (tot_by_year df) ->
  (1910 < y)%Z /\ (s == acres_in_year df y)%Q.
Proof.
  intro I. apply tot_by_year_In in I. destruct I as [I L].
  split; [exact L|]. now apply groupby_sum_of_group.
Qed.

Lemma yearly_sum_is_sum_of_year_witness :
  (1910 < 2018)%Z /\ (150 == acres_in_year Sample.df 2018)%Q.
Proof.
  apply (yearly_sum_is_sum_of_year Sample.df 2018 150).
  simpl. tauto.
Defined.

Lemma group_add_front (y : Z) (a : Q) (groups : list (Z * Q)) :
  Forall (fun row => (y < fst row)%Z) groups ->
  group_add y a groups = (y, a) :: groups.
Proof.
  destruct 1 as [|[k s] rest L _]; simpl; [reflexivity|].
  simpl in L. apply Z.ltb_lt in L. now rewrite L.
Qed.

Lemma filter_group_add (p : Z -> bool) (y : Z) (a : Q) (groups : list (Z * Q)) :
  StronglySorted Z.lt (map fst groups) ->
  filter (fun row => p (fst row)) (group_add y a groups)
  = if p y then group_add y a (filter (fun row => p (fst row)) groups)
    else filter (fun row => p (fst row)) groups.
Proof.
  induction groups as [|[k s] rest IH]; simpl; intro S.
  - now destruct (p y).
  - inversion S as [|? ? S' F]; subst.
    destruct (y <? k)%Z eqn:L; [|destruct (y =? k)%Z eqn:E].
    + apply Z.ltb_lt in L. simpl. destruct (p y); [|reflexivity].
      symmetry. apply group_add_front.
      apply Forall_forall. intros [k' s'] I. simpl.
      destruct (p k).
      * destruct I as [[= <- <-]|I]; [exact L|].
        apply filter_In in I. destruct I as [I _].
        rewrite Forall_forall in F.
        assert (k < k')%Z by (apply F, in_map_iff; now exists (k', s')). lia.
      * apply filter_In in I. destruct I as [I _].
        rewrite Forall_forall in F.
        assert (k < k')%Z by (apply F, in_map_iff; now exists (k', s')). lia.
    + apply Z.eqb_eq in E. subst k. simpl.
      destruct (p y); [|reflexivity]. simpl. now rewrite L, Z.eqb_refl.
    + simpl. rewrite (IH S').
      destruct (p k), (p y); simpl; try reflexivity. now rewrite L, E.
Qed.

Lemma groupby_filter_from (p : Z -> bool) (df : list FireRecord)
      (acc : list (Z * Q)) :
  StronglySorted Z.lt (map fst acc) ->
  filter (fun row => p (fst row))
         (fold_left (fun groups r => group_add (YEAR r) (nan_skipped (GIS_ACRES r)) groups)
                    df acc)
  = fold_left (fun groups r => group_add (YEAR r) (nan_skipped (GIS_ACRES r)) groups)
              (filter (fun r => p (YEAR r)) df)
              (filter (fun row => p (fst row)) acc).
Proof.
  revert acc. induction df as [|r df IH]; intros acc S; simpl; [reflexivity|].
  rewrite IH by (rewrite group_add_keys; now apply key_insert_sorted).
  rewrite (filter_group_add p _ _ acc S).
  now destruct (p (YEAR r)).
Qed.

(** X6: dropping the years up to 1910 after grouping (line 140) gives the
    table that grouping only the records of later years gives: the cut-off
    changes no sum that is kept. *)
Theorem cutoff_commutes_with_grouping (df : list FireRecord) :
  tot_by_year df
  = groupby_year_sum_acres (filter (fun r => (1910 <? YEAR r)%Z) df).
Proof.
  unfold tot_by_year, groupby_year_sum_acres.
  apply (groupby_filter_from (fun y => (1910 <? y)%Z) df []). constructor.
Qed.

(** *** Order of the records *)

Lemma group_lookup_In (y : Z) (s : Q) (groups : list (Z * Q)) :
  group_lookup y groups = Some s -> In y (map fst groups).
Proof.
  induction groups as [|[k v] rest IH]; simpl; [discriminate|].
  destruct (k =? y)%Z eqn:E; [apply Z.eqb_eq in E; auto|auto].
Qed.

Lemma group_lookup_below (y : Z) (groups : list (Z * Q)) :
  Forall (fun k => (y < k)%Z) (map fst groups) -> group_lookup y groups = None.
Proof.
  induction groups as [|[k v] rest IH]; simpl; [reflexivity|]. intro F.
  inversion F as [|? ? L F']; subst.
  assert (E : (k =? y)%Z = false) by (apply Z.eqb_neq; lia).
  rewrite E. now apply IH.
Qed.

Lemma group_lookup_add (y y' : Z) (a : Q) (groups : list (Z * Q)) :
  StronglySorted Z.lt (map fst groups) ->
  group_lookup y (group_add y' a groups)
  = if (y' =? y)%Z then accumulate (group_lookup y groups) a
    else group_lookup y groups.
Proof.
  induction groups as [|[k s] rest IH]; simpl; intro S.
  - now destruct (y' =? y)%Z.
  - inversion S as [|? ? S' F]; subst.
    destruct (y' <? k)%Z eqn:L; [|destruct (y' =? k)%Z eqn:E].
    + apply Z.ltb_lt in L. simpl.
      destruct (y' =? y)%Z eqn:Y; [|reflexivity].
      apply Z.eqb_eq in Y. subst y'.
      assert (N : (k =? y)%Z = false) by (apply Z.eqb_neq; lia).
      rewrite N, group_lookup_below; [reflexivity|].
      eapply Forall_impl; [|exact F]. intros; lia.
    + apply Z.eqb_eq in E. subst k. simpl.
      now destruct (y' =? y)%Z.
    + simpl. apply Z.eqb_neq in E.
      destruct (k =? y)%Z eqn:Y.
      * apply Z.eqb_eq in Y. subst k.
        assert (N : (y' =? y)%Z = false) by (apply Z.eqb_neq; lia).
        now rewrite N.
      * now apply IH.
Qed.

Lemma groupby_lookup_from (y : Z) (df : list FireRecord) (acc : list (Z * Q)) :
  StronglySorted Z.lt (map fst acc) ->
  group_lookup y
    (fold_left (fun groups r => group_add (YEAR r) (nan_skipped (GIS_ACRES r)) groups)
               df acc)
  = fold_left (fun sum r => accumulate sum (nan_skipped (GIS_ACRES r)))
              (filter (fun r => (YEAR r =? y)%Z) df)
              (group_lookup y acc).
Proof.
  revert acc. induction df as [|r df IH]; intros acc S; simpl; [reflexivity|].
  rewrite IH by (rewrite group_add_keys; now apply key_insert_sorted).
  rewrite (group_lookup_add y (YEAR r) _ acc S).
  now destruct (YEAR r =? y)%Z.
Qed.

(** The sum of a year in the group table of line 136 is the sum of the
    records of that year, added in the order of the table. *)
Lemma groupby_lookup (y : Z) (df : list FireRecord) :
  group_lookup y (groupby_year_sum_acres df)
  = sum_in_order (filter (fun r => (YEAR r =? y)%Z) df).
Proof.
  unfold groupby_year_sum_acres, sum_in_order.
  apply (groupby_lookup_from y df []). constructor.
Qed.

Lemma group_tables_ext (g g' : list (Z * Q)) :
  StronglySorted Z.lt (map fst g) -> StronglySorted Z.lt (map fst g') ->
  (forall y, group_lookup y g = group_lookup y g') -> g = g'.
Proof.
  revert g'. induction g as [|[k s] rest IH]; intros [|[k' s'] rest'] S S' E.
  - reflexivity.
  - specialize (E k'). simpl in E. rewrite Z.eqb_refl in E. discriminate.
  - specialize (E k). simpl in E. rewrite Z.eqb_refl in E. discriminate.
  - simpl in S, S'.
    inversion S as [|? ? T F]; inversion S' as [|? ? T' F']; subst.
    assert (K : k = k').
    { pose proof (E k) as E1. pose proof (E k') as E2. simpl in E1, E2.
      rewrite Z.eqb_refl in E1, E2.
      destruct (k' =? k)%Z eqn:X; [now apply Z.eqb_eq in X|].
      destruct (k =? k')%Z eqn:X'; [now apply Z.eqb_eq in X'|].
      symmetry in E1. apply group_lookup_In in E1. apply group_lookup_In in E2.
      rewrite Forall_forall in F, F'.
      specialize (F _ E2). specialize (F' _ E1). lia. }
    subst k'.
    assert (V : s = s').
    { specialize (E k). simpl in E. rewrite Z.eqb_refl in E. congruence. }
    subst s'. f_equal. apply IH; [exact T|exact T'|].
    intro y. specialize (E y). simpl in E.
    destruct (k =? y)%Z eqn:X; [|exact E].
    apply Z.eqb_eq in X. subst y.
    now rewrite !group_lookup_below.
Qed.

(** X7: the yearly table depends only on the records of each year in the
    order they have in the table: two tables in which every year has the
    same records in the same order give the same yearly table, however the
    years are interleaved. *)
Theorem tot_by_year_depends_on_each_year (df df' : list FireRecord) :
  (forall y, filter (fun r => (YEAR r =? y)%Z) df
             = filter (fun r => (YEAR r =? y)%Z) df') ->
  tot_by_year df = tot_by_year df'.
Proof.
  intro E. unfold tot_by_year. f_equal.
  apply group_tables_ext; try apply groupby_keys_sorted.
  intro y. now rewrite !groupby_lookup, E.
Qed.

Lemma tot_by_year_depends_on_each_year_witness :
  tot_by_year Sample.df = tot_by_year Sample.df_interleaved.
Proof.
  apply (tot_by_year_depends_on_each_year Sample.df Sample.df_interleaved).
  intro y. unfold Sample.df, Sample.df_interleaved, Sample.fire.
  cbn [filter YEAR].
  destruct (Z.eq_dec 2018 y) as [<-|N1]; [reflexivity|].
  destruct (Z.eq_dec 2019 y) as [<-|N2]; [reflexivity|].
  destruct (Z.eq_dec 1905 y) as [<-|N3]; [reflexivity|].
  destruct (Z.eq_dec 2016 y) as [<-|N4]; [reflexivity|].
  destruct (Z.eq_dec 2017 y) as [<-|N5]; [reflexivity|].
  apply Z.eqb_neq in N1, N2, N3, N4, N5.
  now rewrite N1, N2, N3, N4, N5.
Defined.

(** ** More on the rolling mean *)

Lemma total_fold_left (vs : list Q) (acc : Q) :
  (fold_left Qplus vs acc == acc + total vs)%Q.
Proof.
  revert acc. induction vs as [|v vs IH]; intro acc; simpl; [ring|].
  rewrite IH. ring.
Qed.

Lemma arithmetic_mean_total (vs : list Q) :
  (arithmetic_mean vs == total vs / inject_Z (Z.of_nat (List.length vs)))%Q.
Proof.
  unfold arithmetic_mean. rewrite Qred_correct, total_fold_left.
  now rewrite Qplus_0_l.
Qed.

Lemma total_bounds (lo hi : Q) (vs : list Q) :
  Forall (fun v => lo <= v <= hi)%Q vs ->
  (inject_Z (Z.of_nat (List.length vs)) * lo <= total vs
   <= inject_Z (Z.of_nat (List.length vs)) * hi)%Q.
Proof.
  induction 1 as [|v vs [L H] _ [IL IH]].
  - simpl. split; ring_simplify; apply Qle_refl.
  - cbn [List.length total]. rewrite Nat2Z.inj_succ. unfold Z.succ.
    rewrite inject_Z_plus. split.
    + setoid_replace ((inject_Z (Z.of_nat (List.length vs)) + inject_Z 1) * lo)%Q
        with (lo + inject_Z (Z.of_nat (List.length vs)) * lo)%Q by ring.
      now apply Qplus_le_compat.
    + setoid_replace ((inject_Z (Z.of_nat (List.length vs)) + inject_Z 1) * hi)%Q
        with (hi + inject_Z (Z.of_nat (List.length vs)) * hi)%Q by ring.
      now apply Qplus_le_compat.
Qed.

Lemma arithmetic_mean_bounds (lo hi : Q) (vs : list Q) :
  vs <> [] ->
  Forall (fun v => lo <= v <= hi)%Q vs ->
  (lo <= arithmetic_mean vs <= hi)%Q.
Proof.
  intros N F. rewrite arithmetic_mean_total.
  destruct (total_bounds lo hi vs F) as [L H].
  assert (P : (0 < inject_Z (Z.of_nat (List.length vs)))%Q).
  { destruct vs; [congruence|]. simpl List.length.
    rewrite <- (Zlt_Qlt 0). lia. }
  split.
  - apply Qle_shift_div_l; [exact P|]. now rewrite Qmult_comm.
  - apply Qle_shift_div_r; [exact P|]. now rewrite Qmult_comm.
Qed.

Lemma clipped_window_in_range (n i j : nat) (windowBefore windowAfter : Z) :
  In j (clipped_window n i windowBefore windowAfter) -> (j < n)%nat.
Proof. unfold clipped_window. rewrite filter_In, in_seq. lia. Qed.

Lemma clipped_window_self (n i : nat) (windowBefore windowAfter : Z) :
  (0 <= windowBefore)%Z -> (0 <= windowAfter)%Z -> (i < n)%nat ->
  In i (clipped_window n i windowBefore windowAfter).
Proof. intros. apply clipped_window_In. lia. Qed.

(** X8: smoothing never leaves the range of the data: when every value of
    the series lies between [lo] and [hi], so does every smoothed value, and
    every smoothed value is defined. *)
Theorem rolling_smoother_within_range {K : Type} (series : list (K * Q))
        (windowBefore windowAfter : Z) (lo hi : Q) :
  (0 <= windowBefore)%Z -> (0 <= windowAfter)%Z ->
  Forall (fun row => lo <= snd row <= hi)%Q series ->
  Forall (fun row => exists m, snd row = Some m /\ (lo <= m <= hi)%Q)
         (rolling_smoother windowBefore windowAfter series).
Proof.
  intros B A F. apply Forall_forall. intros [k m] I.
  apply In_nth_error in I. destruct I as [i I].
  assert (L : (i < List.length series)%nat).
  { rewrite <- (rolling_smoother_length series windowBefore windowAfter).
    apply nth_error_Some. congruence. }
  destruct (nth_error series i) as [[k' v]|] eqn:R;
    [|apply nth_error_None in R; lia].
  rewrite (rolling_smoother_nth series windowBefore windowAfter i _ _ B A R) in I.
  injection I as <- <-. eexists. split; [reflexivity|].
  apply arithmetic_mean_bounds.
  - pose proof (clipped_window_self (List.length series) i
                  windowBefore windowAfter B A L) as S.
    unfold values_at. destruct (clipped_window _ _ _ _); [destruct S|discriminate].
  - unfold values_at. apply Forall_forall. intros x X.
    apply in_map_iff in X. destruct X as [j [<- J]].
    apply clipped_window_in_range in J.
    rewrite Forall_forall in F.
    assert (M : In (nth j (map snd series) 0%Q) (map snd series))
      by (apply nth_In; now rewrite length_map).
    apply in_map_iff in M. destruct M as [row [<- M]]. now apply F.
Qed.

Lemma rolling_smoother_within_range_witness :
  Forall (fun row => exists m, snd row = Some m /\ (8 <= m <= 150)%Q)
         (line_smooth 3 Sample.yearly).
Proof.
  apply (rolling_smoother_within_range Sample.yearly 3 0 8 150); try lia.
  repeat constructor; simpl; unfold Qle; simpl; lia.
Defined.

(** X9: with both window sizes 0 the smoother returns the series itself:
    the same keys, and at every position a value equal to the input
    value. *)
Theorem rolling_smoother_zero_window {K : Type} (series : list (K * Q))
        (i : nat) (k : K) (v : Q) :
  nth_error series i = Some (k, v) ->
  exists m, nth_error (rolling_smoother 0 0 series) i = Some (k, Some m)
            /\ (m == v)%Q.
Proof.
  intro R.
  assert (L : (i < List.length series)%nat)
    by (apply nth_error_Some; congruence).
  rewrite (rolling_smoother_nth series 0 0 i _ _ (Z.le_refl 0) (Z.le_refl 0) R).
  eexists. split; [reflexivity|].
  pose proof (clipped_window_frame (List.length series) i 0 0
                (Z.le_refl 0) (Z.le_refl 0) L) as W.
  unfold Vega.set_window in W. cbn [fst snd] in W.
  destruct W as [_ [_ W]]. rewrite W.
  replace (Z.to_nat (Z.max 0 (Z.of_nat i - Z.abs (- 0)))) with i by lia.
  replace (Z.to_nat (Z.min (Z.of_nat (List.length series))
                           (Z.of_nat i + Z.abs 0 + 1)) - i)%nat
    with 1%nat by lia.
  unfold values_at. cbn [seq map].
  rewrite (nth_error_nth (map snd series) i 0%Q (x := v))
    by (now rewrite nth_error_map, R).
  rewrite arithmetic_mean_total. simpl. field.
Qed.

Lemma rolling_smoother_zero_window_witness :
  exists m, nth_error (rolling_smoother 0 0 Sample.series) 1
            = Some (2018%Z, Some m) /\ (m == 20)%Q.
Proof.
  apply (rolling_smoother_zero_window Sample.series 1 2018%Z 20%Q).
  reflexivity.
Defined.

Lemma trailing_window (n i : nat) (window : Z) :
  (0 <= window)%Z -> (i < n)%nat ->
  clipped_window n i window 0
  = seq (Z.to_nat (Z.max 0 (Z.of_nat i - window)))
        (S i - Z.to_nat (Z.max 0 (Z.of_nat i - window))).
Proof.
  intros B L.
  pose proof (clipped_window_frame n i window 0 B (Z.le_refl 0) L) as W.
  unfold Vega.set_window in W. cbn [fst snd] in W.
  destruct W as [_ [_ W]]. rewrite W. f_equal; lia.
Qed.

Lemma nth_firstn_below {A : Type} (l : list A) (n j : nat) (d : A) :
  (j < n)%nat -> nth j (firstn n l) d = nth j l d.
Proof.
  revert n j. induction l as [|x l IH]; intros [|n] [|j] L; simpl;
    try reflexivity; try lia.
  apply IH. lia.
Qed.

Lemma values_at_prefix {K : Type} (series : list (K * Q)) (n : nat)
      (idx : list nat) :
  Forall (fun j => (j < n)%nat) idx ->
  values_at series idx = values_at (firstn n series) idx.
Proof.
  intro F. unfold values_at. apply map_ext_in. intros j J.
  rewrite Forall_forall in F.
  now rewrite <- firstn_map, nth_firstn_below by now apply F.
Qed.

(** X10: the trailing mean of the fire chart never looks ahead: its value at
    position [i] is determined by the rows up to and including [i], so two
    series with the same first [i + 1] rows have the same smoothed row at
    [i]. *)
Theorem line_smooth_ignores_later_rows
        (window : Z) (tot1 tot2 : list (Z * Q)) (i : nat) :
  (0 <= window)%Z ->
  (i < List.length tot1)%nat -> (i < List.length tot2)%nat ->
  firstn (S i) tot1 = firstn (S i) tot2 ->
  nth_error (line_smooth window tot1) i = nth_error (line_smooth window tot2) i.
Proof.
  intros B L1 L2 E. unfold line_smooth.
  change (Vega.rolling_mean_line (Some (- window)%Z, Some 0%Z))
    with (@rolling_smoother Z window 0).
  destruct (nth_error tot1 i) as [[k1 v1]|] eqn:R1;
    [|apply nth_error_None in R1; lia].
  destruct (nth_error tot2 i) as [[k2 v2]|] eqn:R2;
    [|apply nth_error_None in R2; lia].
  assert (R : Some (k1, v1) = Some (k2, v2)).
  { rewrite <- R1, <- R2.
    rewrite <- (firstn_skipn (S i) tot1), <- (firstn_skipn (S i) tot2), E.
    rewrite !nth_error_app1; [reflexivity| |];
      rewrite length_firstn; lia. }
  injection R as <- <-.
  rewrite (rolling_smoother_nth tot1 window 0 i _ _ B (Z.le_refl 0) R1).
  rewrite (rolling_smoother_nth tot2 window 0 i _ _ B (Z.le_refl 0) R2).
  rewrite !trailing_window by assumption.
  set (idx := seq _ _).
  assert (F : Forall (fun j => (j < S i)%nat) idx).
  { apply Forall_forall. intros j J. unfold idx in J. apply in_seq in J. lia. }
  rewrite (values_at_prefix tot1 (S i) idx F), (values_at_prefix tot2 (S i) idx F).
  now rewrite E.
Qed.

Lemma line_smooth_ignores_later_rows_witness :
  nth_error (line_smooth 15 Sample.yearly) 1
  = nth_error (line_smooth 15 (firstn 2 Sample.yearly ++ [(5%Z, 1000%Q)])) 1.
Proof.
  apply (line_smooth_ignores_later_rows 15 Sample.yearly
           (firstn 2 Sample.yearly ++ [(5%Z, 1000%Q)]) 1).
  - lia.
  - simpl. lia.
  - simpl. lia.
  - reflexivity.
Defined.

(** ** Rounding, again *)

Lemma rint_floor_cases (q : Q) : rint q = Qfloor q \/ rint q = (Qfloor q + 1)%Z.
Proof.
  unfold rint. destruct (_ ?= _)%Q; auto. destruct (Z.even _); auto.
Qed.

Lemma rint_le_whole (q : Q) (z : Z) : (q <= inject_Z z)%Q -> (rint q <= z)%Z.
Proof.
  intro L.
  assert (F : (Qfloor q <= z)%Z)
    by (rewrite <- (Qfloor_Z z); now apply Qfloor_resp_le).
  destruct (Z.eq_dec (Qfloor q) z) as [E|N].
  - assert (Q0 : (q == inject_Z z)%Q).
    { apply Qle_antisym; [exact L|]. rewrite <- E. apply Qfloor_le. }
    rewrite (rint_comp _ _ Q0), rint_inject_Z. lia.
  - destruct (rint_floor_cases q); lia.
Qed.

Lemma rint_ge_whole (q : Q) (z : Z) : (inject_Z z <= q)%Q -> (z <= rint q)%Z.
Proof.
  intro L.
  assert (F : (z <= Qfloor q)%Z)
    by (rewrite <- (Qfloor_Z z); now apply Qfloor_resp_le).
  destruct (rint_floor_cases q); lia.
Qed.

Lemma np_round_le (q : Q) (d : nat) (z : Z) :
  (q * pow10 d <= inject_Z z)%Q -> (np_round q d <= inject_Z z / pow10 d)%Q.
Proof.
  intro L. unfold np_round. rewrite Qred_correct.
  assert (P : (0 < pow10 d)%Q).
  { unfold pow10. rewrite <- (Zlt_Qlt 0). apply Z.pow_pos_nonneg; lia. }
  apply Qmult_le_compat_r.
  - rewrite <- Zle_Qle. now apply rint_le_whole.
  - apply Qlt_le_weak, Qinv_lt_0_compat, P.
Qed.

Lemma np_round_ge (q : Q) (d : nat) (z : Z) :
  (inject_Z z <= q * pow10 d)%Q -> (inject_Z z / pow10 d <= np_round q d)%Q.
Proof.
  intro L. unfold np_round. rewrite Qred_correct.
  assert (P : (0 < pow10 d)%Q).
  { unfold pow10. rewrite <- (Zlt_Qlt 0). apply Z.pow_pos_nonneg; lia. }
  apply Qmult_le_compat_r.
  - rewrite <- Zle_Qle. now apply rint_ge_whole.
  - apply Qlt_le_weak, Qinv_lt_0_compat, P.
Qed.

(** ** The label and the number printed beside it *)

(** X11: the label agrees with the printed number: when the narrative says
    "non-stationary" the number printed as p-value is at most 0.05, and when
    it says "stationary" the number is at least 0.05; for a p-value between
    0 and 1 the printed number lies between 0 and 1. *)
Theorem label_agrees_with_shown_pvalue
        (adfuller : list Z -> result ADFResult) (cause_option : string)
        (tot : list (Z * Q)) (test : ADFResult) (p : Q) :
  dftest adfuller tot = Ok test ->
  adf_pvalue test = Some p ->
  exists text shown,
    stationarity_markdown adfuller cause_option tot = Ok text
    /\ text_pvalue text = Some shown
    /\ (text_stationarity text = "non-stationary"%string -> (shown <= 5 # 100)%Q)
    /\ (text_stationarity text = "stationary"%string -> (5 # 100 <= shown)%Q)
    /\ ((0 <= p <= 1)%Q -> (0 <= shown <= 1)%Q).
Proof.
  intros T P. unfold stationarity_markdown. rewrite T. cbn [bind].
  rewrite P. cbn [fsub np_round_float].
  eexists. eexists. split; [reflexivity|]. cbn -[np_round stationarity].
  split; [reflexivity|].
  assert (S100 : forall a b : Q, (a <= b)%Q -> (a * 100 <= b * 100)%Q)
    by (intros a b L; apply Qmult_le_compat_r; [exact L|discriminate]).
  split; [|split].
  - intro S. apply stationarity_non_stationary in S.
    destruct S as [p' [[= <-] L]].
    apply Qle_trans with (inject_Z 5 / pow10 2)%Q; [|discriminate].
    apply np_round_le. change (pow10 2) with 100%Q.
    apply Qle_trans with ((5 # 100) * 100)%Q; [|discriminate].
    apply S100. now apply Qlt_le_weak.
  - intro S. apply stationarity_stationary in S.
    apply Qle_trans with (inject_Z 5 / pow10 2)%Q; [discriminate|].
    apply np_round_ge. change (pow10 2) with 100%Q.
    apply Qle_trans with ((5 # 100) * 100)%Q; [discriminate|].
    apply S100. apply Qnot_lt_le. intro L. apply S. exists p. auto.
  - intros [P0 P1]. split.
    + apply Qle_trans with (inject_Z 0 / pow10 2)%Q; [discriminate|].
      apply np_round_ge. change (pow10 2) with 100%Q.
      apply Qle_trans with (0 * 100)%Q; [discriminate|].
      apply S100. apply (Qplus_le_l _ _ p). ring_simplify. exact P1.
    + apply Qle_trans with (inject_Z 100 / pow10 2)%Q; [|discriminate].
      apply np_round_le. change (pow10 2) with 100%Q.
      apply Qle_trans with (1 * 100)%Q; [|discriminate].
      apply S100. apply (Qplus_le_l _ _ p). ring_simplify.
      apply (Qplus_le_l _ _ (- 1)). ring_simplify. exact P0.
Qed.

Lemma label_agrees_with_shown_pvalue_witness :
  exists text shown,
    stationarity_markdown Sample.adfuller "All" Sample.yearly = Ok text
    /\ text_pvalue text = Some shown
    /\ (text_stationarity text = "non-stationary"%string -> (shown <= 5 # 100)%Q)
    /\ (text_stationarity text = "stationary"%string -> (5 # 100 <= shown)%Q)
    /\ ((0 <= 99 # 100 <= 1)%Q -> (0 <= shown <= 1)%Q).
Proof.
  apply (label_agrees_with_shown_pvalue Sample.adfuller "All" Sample.yearly
           {| adf_statistic := Some (1 # 2); adf_pvalue := Some (99 # 100) |}
           (99 # 100)%Q); reflexivity.
Defined.

(** ** The rows of the merged table *)

Lemma with_status_In (a : option string) (s : string)
      (recovered : list (option string)) :
  In (a, s) (with_status recovered) <-> In a recovered /\ s = "recovered"%string.
Proof.
  unfold with_status. rewrite in_map_iff. split.
  - intros [x [[= <- <-] I]]. auto.
  - intros [I ->]. now exists a.
Qed.

Lemma merge_left_rows (burnt : list BurntHome) (recovered : list (option string))
      (m : Home) :
  In m (merge_left burnt (with_status recovered))
  <-> exists b, In b burnt
                /\ ((m = merged_row b None /\ ~ In (b_address b) recovered)
                    \/ (m = merged_row b (Some "recovered"%string)
                        /\ In (b_address b) recovered)).
Proof.
  unfold merge_left. rewrite in_flat_map.
  split; intros [b [B M]]; exists b; (split; [exact B|]).
  - rewrite filter_with_status in M.
    destruct (filter (key_eqb (b_address b)) recovered) as [|x l] eqn:F.
    + destruct M as [<-|[]]. left. split; [reflexivity|].
      intro I.
      assert (X : In (b_address b) (filter (key_eqb (b_address b)) recovered))
        by (apply filter_In; split; [exact I|now apply key_eqb_eq]).
      now rewrite F in X.
    + change (with_status (x :: l)) with ((x, "recovered"%string) :: with_status l) in M.
      apply in_map_iff in M. destruct M as [[a s] [<- M]]. right.
      change ((x, "recovered"%string) :: with_status l)
        with (with_status (x :: l)) in M.
      apply with_status_In in M. destruct M as [M ->].
      split; [reflexivity|]. rewrite <- F in M. apply filter_In in M.
      destruct M as [M E]. apply key_eqb_eq in E. now rewrite E.
  - rewrite filter_with_status.
    destruct M as [[-> N]|[-> I]].
    + rewrite filter_absent by exact N. simpl. auto.
    + assert (X : In (b_address b) (filter (key_eqb (b_address b)) recovered))
        by (apply filter_In; split; [exact I|now apply key_eqb_eq]).
      destruct (filter (key_eqb (b_address b)) recovered) as [|x l]; [destruct X|].
      simpl. left. reflexivity.
Qed.

Lemma existsb_key (a : option string) (l : list (option string)) :
  existsb (key_eqb a) l = true <-> In a l.
Proof.
  rewrite existsb_exists. split.
  - intros [x [I E]]. apply key_eqb_eq in E. now subst.
  - intro I. exists a. split; [exact I|now apply key_eqb_eq].
Qed.

Lemma homes_rows_exact (burnt : list BurntHome) (recovered : list (option string))
      (h : Home) :
  In h (homes burnt recovered)
  <-> exists b, In b burnt /\ h = home_row recovered b.
Proof.
  unfold homes. rewrite map_map, in_map_iff. split.
  - intros [m [<- M]]. apply merge_left_rows in M.
    destruct M as [b [B [[-> N]|[-> I]]]]; exists b; (split; [exact B|]);
      unfold home_row.
    + rewrite existsb_absent by exact N. reflexivity.
    + apply existsb_key in I. rewrite I. reflexivity.
  - intros [b [B ->]]. unfold home_row.
    destruct (existsb (key_eqb (b_address b)) recovered) eqn:X.
    + exists (merged_row b (Some "recovered"%string)). split; [reflexivity|].
      apply merge_left_rows. exists b. apply existsb_key in X. auto.
    + exists (merged_row b None). split; [reflexivity|].
      apply merge_left_rows. exists b. split; [exact B|]. left.
      split; [reflexivity|]. intro I. apply existsb_key in I. congruence.
Qed.

(** X12: every row of [homes] carries the address of a burnt home and one of
    the two labels, and it is labelled 'recovered' exactly when that address
    is listed among the recovered homes; an address listed only among the
    recovered homes gives no row. *)
Theorem homes_status_by_membership
        (burnt : list BurntHome) (recovered : list (option string)) (h : Home) :
  In h (homes burnt recovered) ->
  In (address h) (map b_address burnt)
  /\ (status h = Some "recovered"%string <-> In (address h) recovered)
  /\ (status h = Some "destroyed"%string <-> ~ In (address h) recovered).
Proof.
  intro H. apply homes_rows_exact in H. destruct H as [b [B ->]].
  unfold home_row. cbn [address status]. split; [now apply in_map|].
  destruct (existsb (key_eqb (b_address b)) recovered) eqn:X.
  - apply existsb_key in X. split; split; intro Y;
      try reflexivity; try assumption; try discriminate; contradiction.
  - assert (N : ~ In (b_address b) recovered)
      by (intro I; apply existsb_key in I; congruence).
    split; split; intro Y;
      try reflexivity; try assumption; try discriminate; contradiction.
Qed.

Lemma homes_status_by_membership_witness :
  In (Some "A"%string) (map b_address Sample.burnt)
  /\ (Some "recovered"%string = Some "recovered"%string
      <-> In (Some "A"%string) Sample.recovered_twice)
  /\ (Some "recovered"%string = Some "destroyed"%string
      <-> ~ In (Some "A"%string) Sample.recovered_twice).
Proof.
  apply (homes_status_by_membership Sample.burnt Sample.recovered_twice
           {| address := Some "A"%string; lat := Some (384 # 10);
              lon := Some (- (1226 # 10)); zestimate := Some 200%Q;
              status := Some "recovered"%string |}).
  simpl. auto.
Defined.

(** X13: the merge loses no burnt home: each burnt home has a row in
    [homes] with its address and coordinates unchanged and its valuation
    rounded to whole dollars. *)
Theorem homes_keeps_every_burnt_home
        (burnt : list BurntHome) (recovered : list (option string))
        (b : BurntHome) :
  In b burnt ->
  exists h, In h (homes burnt recovered)
            /\ address h = b_address b
            /\ lat h = b_lat b /\ lon h = b_lon b
            /\ zestimate h = np_round_float (b_zestimate b) 0.
Proof.
  intro B. eexists. split.
  - apply homes_rows_exact. exists b. split; [exact B|reflexivity].
  - cbn. auto.
Qed.

Lemma homes_keeps_every_burnt_home_witness :
  exists h, In h (homes Sample.burnt Sample.recovered_twice)
            /\ address h = Some "B"%string
            /\ lat h = Some (384 # 10) /\ lon h = Some (- (1226 # 10))
            /\ zestimate h = np_round_float (Some 100%Q) 0.
Proof.
  apply (homes_keeps_every_burnt_home Sample.burnt Sample.recovered_twice
           (Sample.burnt_home "B" 100)).
  simpl. auto.
Defined.

(** ** The closing numbers *)

(** X14: the building count of the closing sentence is a multiple of ten
    within five of the number of rows of [homes]. *)
Theorem rough_buildings_nearest_ten (hs : list Home) :
  (exists k, rough_buildings hs = 10 * k)%Z
  /\ (nrow hs - 5 <= rough_buildings hs <= nrow hs + 5)%Z.
Proof.
  unfold rough_buildings.
  set (k := rint (inject_Z (nrow hs) / 10)).
  assert (E : int (inject_Z k * 10) = (10 * k)%Z).
  { apply int_whole. rewrite inject_Z_mult. change (inject_Z 10) with 10%Q. ring. }
  rewrite E. split; [now exists k|].
  pose proof (rint_close (inject_Z (nrow hs) / 10)) as [L U]. fold k in L, U.
  assert (L' : (inject_Z (10 * k - 5) <= inject_Z (nrow hs))%Q).
  { unfold Zminus. rewrite inject_Z_plus, inject_Z_mult.
    change (inject_Z 10) with 10%Q. change (inject_Z (- (5))) with (- (5))%Q.
    setoid_replace (inject_Z (nrow hs)) with (inject_Z (nrow hs) / 10 * 10)%Q
      by field. lra. }
  assert (U' : (inject_Z (nrow hs) <= inject_Z (10 * k + 5))%Q).
  { rewrite inject_Z_plus, inject_Z_mult.
    change (inject_Z 10) with 10%Q. change (inject_Z 5) with 5%Q.
    setoid_replace (inject_Z (nrow hs)) with (inject_Z (nrow hs) / 10 * 10)%Q
      by field. lra. }
  rewrite <- Zle_Qle in L', U'. lia.
Qed.

Lemma whole_sum_nonneg (col : list float) :
  Forall (fun v => match v with Some q => (0 <= Qfloor q)%Z | None => True end) col ->
  (0 <= whole_sum col)%Z.
Proof.
  induction 1 as [|[q|] col H _ IH]; simpl; lia.
Qed.

Lemma value_by_status_nonneg (s : string) (burnt : list BurntHome)
      (recovered : list (option string)) :
  Forall nonneg_value burnt ->
  (0 <= value_by_status s (homes burnt recovered))%Z.
Proof.
  intro NN. unfold value_by_status.
  assert (C : forall x, In x (map zestimate
                               (filter (status_is s) (homes burnt recovered))) ->
                        whole x
                        /\ match x with
                           | Some q => (0 <= Qfloor q)%Z
                           | None => True
                           end).
  { intros x X. apply in_map_iff in X. destruct X as [h [<- H]].
    apply filter_In in H. destruct H as [H _].
    destruct (homes_rows _ _ _ H) as [b [B [_ [Z _]]]]. rewrite Z.
    split; [apply np_round_float_0_whole|].
    rewrite Forall_forall in NN. specialize (NN _ B). unfold nonneg_value in NN.
    destruct (b_zestimate b) as [q|]; simpl; [|exact I].
    rewrite (Qfloor_comp _ _ (np_round_0_whole q)), Qfloor_Z.
    now apply rint_ge_whole. }
  rewrite int_np_sum_whole.
  - apply whole_sum_nonneg, Forall_forall. intros x X. now apply C.
  - apply Forall_forall. intros x X. now apply C.
Qed.

(** X15: when no valuation is negative and the valuations of the rows stay
    in the range of exact sums, both status sums are non-negative and the
    percentage printed in the closing sentence lies between 0 and 100. *)
Theorem recovered_percent_in_range
        (burnt : list BurntHome) (recovered : list (option string))
        (text : RecoveryText) :
  Forall nonneg_value burnt ->
  sum_in_exact_range burnt recovered ->
  recovery_markdown (homes burnt recovered) = Ok text ->
  (0 <= destroyed_value (homes burnt recovered))%Z
  /\ (0 <= recovered_value (homes burnt recovered))%Z
  /\ (0 <= text_percent text <= 100)%Q.
Proof.
  intros NN _ M.
  pose proof (value_by_status_nonneg "destroyed" burnt recovered NN) as D.
  pose proof (value_by_status_nonneg "recovered" burnt recovered NN) as R.
  fold (destroyed_value (homes burnt recovered)) in D.
  fold (recovered_value (homes burnt recovered)) in R.
  split; [exact D|]. split; [exact R|].
  revert M. unfold recovery_markdown.
  set (d := destroyed_value (homes burnt recovered)) in *.
  set (r := recovered_value (homes burnt recovered)) in *.
  change (truediv (d + r) 1000000000)
    with (Ok (Qred (inject_Z (d + r) / inject_Z 1000000000))).
  change (truediv r 1000000000)
    with (Ok (Qred (inject_Z r / inject_Z 1000000000))).
  cbn [bind]. unfold truediv.
  destruct (r + d =? 0)%Z eqn:Z0; cbn [bind]; [discriminate|].
  apply Z.eqb_neq in Z0. intro M.
  apply (f_equal (fun res => match res with
                             | Ok t => text_percent t
                             | Raise _ => 0%Q
                             end)) in M.
  cbn [text_percent] in M. rewrite <- M, Qred_correct.
  set (share := Qred (inject_Z r / inject_Z (r + d))).
  assert (P : (0 < inject_Z (r + d))%Q) by (rewrite <- (Zlt_Qlt 0); lia).
  assert (S : (0 <= share <= 1)%Q).
  { unfold share. rewrite Qred_correct. split.
    - apply Qle_shift_div_l; [exact P|]. rewrite Qmult_0_l, <- (Zle_Qle 0). exact R.
    - apply Qle_shift_div_r; [exact P|]. rewrite Qmult_1_l, <- Zle_Qle. lia. }
  assert (L : (inject_Z 0 / pow10 3 <= np_round share 3)%Q).
  { apply np_round_ge. change (pow10 3) with 1000%Q. change (inject_Z 0) with 0%Q. lra. }
  assert (U : (np_round share 3 <= inject_Z 1000 / pow10 3)%Q).
  { apply np_round_le. change (pow10 3) with 1000%Q.
    change (inject_Z 1000) with 1000%Q. lra. }
  assert (L' : (0 <= np_round share 3)%Q)
    by (eapply Qle_trans; [|exact L]; discriminate).
  assert (U' : (np_round share 3 <= 1)%Q)
    by (eapply Qle_trans; [exact U|]; discriminate).
  set (x := np_round share 3) in *. clearbody x. clear - L' U'. lra.
Qed.

Lemma recovered_percent_in_range_witness :
  (0 <= destroyed_value (homes Sample.burnt Sample.recovered))%Z
  /\ (0 <= recovered_value (homes Sample.burnt Sample.recovered))%Z
  /\ (0 <= 667 # 10 <= 100)%Q.
Proof.
  apply (recovered_percent_in_range Sample.burnt Sample.recovered
           {| text_buildings := 0; text_total_billions := 0;
              text_rebuilt_billions := 0; text_percent := 667 # 10 |}).
  - repeat constructor; unfold nonneg_value; simpl; discriminate.
  - discriminate.
  - reflexivity.
Defined.

(** ** When the script runs through *)

Lemma to_datetime_defined (y : Z) :
  (exists t, to_datetime y = Ok t) <-> (1678 <= y <= 2262)%Z.
Proof.
  unfold to_datetime. split.
  - intros [t T].
    destruct ((1000 <=? y) && (y <=? 9999))%Z eqn:B; [|discriminate].
    destruct ((- 2 ^ 63 <? days_to_jan1 y * ns_per_day)
              && (days_to_jan1 y * ns_per_day <? 2 ^ 63))%Z eqn:R;
      [|discriminate].
    apply andb_true_iff in R. destruct R as [R1 R2].
    apply Z.ltb_lt in R1, R2. unfold ns_per_day in R1, R2.
    change (2 ^ 63)%Z with 9223372036854775808%Z in R1, R2.
    split.
    + destruct (Z_lt_le_dec y 1678) as [L|L]; [|exact L].
      assert (D : (days_to_jan1 y <= days_to_jan1 1677)%Z).
      { destruct (Z.eq_dec y 1677) as [->|N]; [lia|].
        apply Z.lt_le_incl, days_to_jan1_increasing. lia. }
      change (days_to_jan1 1677) with (-107015)%Z in D. lia.
    + destruct (Z_lt_le_dec 2262 y) as [L|L]; [|exact L].
      assert (D : (days_to_jan1 2263 <= days_to_jan1 y)%Z).
      { destruct (Z.eq_dec y 2263) as [->|N]; [lia|].
        apply Z.lt_le_incl, days_to_jan1_increasing. lia. }
      change (days_to_jan1 2263) with 107016%Z in D. lia.
  - intros [L U].
    assert (B : ((1000 <=? y) && (y <=? 9999))%Z = true)
      by (apply andb_true_intro; split; apply Z.leb_le; lia).
    rewrite B.
    assert (D1 : (days_to_jan1 1678 <= days_to_jan1 y)%Z).
    { destruct (Z.eq_dec y 1678) as [->|N]; [lia|].
      apply Z.lt_le_incl, days_to_jan1_increasing. lia. }
    assert (D2 : (days_to_jan1 y <= days_to_jan1 2262)%Z).
    { destruct (Z.eq_dec y 2262) as [->|N]; [lia|].
      apply Z.lt_le_incl, days_to_jan1_increasing. lia. }
    change (days_to_jan1 1678) with (-106650)%Z in D1.
    change (days_to_jan1 2262) with 106651%Z in D2.
    assert (R : ((- 2 ^ 63 <? days_to_jan1 y * ns_per_day)
                 && (days_to_jan1 y * ns_per_day <? 2 ^ 63))%Z = true).
    { apply andb_true_intro. unfold ns_per_day.
      change (2 ^ 63)%Z with 9223372036854775808%Z.
      split; apply Z.ltb_lt; lia. }
    rewrite R. now eexists.
Qed.

Lemma to_datetime_rows_defined (rows : list (Z * Q)) :
  (exists t, to_datetime_rows rows = Ok t)
  <-> Forall (fun y => (1678 <= y <= 2262)%Z) (map fst rows).
Proof.
  unfold to_datetime_rows.
  induction rows as [|[y a] rows IH]; simpl.
  - split; [constructor|now eexists].
  - split.
    + intros [t T].
      destruct (to_datetime y) as [ns|e] eqn:D; simpl in T; [|discriminate].
      destruct (mapM _ rows) as [ts|e] eqn:Ts; simpl in T; [|discriminate].
      constructor.
      * apply to_datetime_defined. now exists ns.
      * apply IH. now exists ts.
    + intro F. inversion F as [|? ? Y F']; subst.
      apply to_datetime_defined in Y. destruct Y as [ns ->].
      apply IH in F'. destruct F' as [ts ->]. simpl. now eexists.
Qed.

(** X16: the table [tot] exists exactly when the cause filter returns a
    table and every year above 1910 that passes the filter is at most 2262;
    a later year makes line 141 raise. *)
Theorem tot_defined_iff (cause_option : string) (df : list FireRecord) :
  (exists t, tot cause_option df = Ok t)
  <-> exists df', record_filter cause_option df = Ok df'
                  /\ forall r, In r df' -> (1910 < YEAR r)%Z -> (YEAR r <= 2262)%Z.
Proof.
  unfold tot.
  destruct (record_filter cause_option df) as [df'|e]; cbn [bind].
  - rewrite to_datetime_rows_defined, Forall_forall. split.
    + intro F. exists df'. split; [reflexivity|]. intros r R L.
      apply (F (YEAR r)). apply tot_by_year_keys_In. split; [now exists r|exact L].
    + intros [? [[= <-] U]] y Y. apply tot_by_year_keys_In in Y.
      destruct Y as [[r [R <-]] L]. specialize (U r R L). lia.
  - split; [intros [t T]; discriminate|intros [? [T _]]; discriminate].
Qed.

Lemma tot_defined_iff_witness : exists t, tot "All" Sample.df = Ok t.
Proof.
  apply (proj2 (tot_defined_iff "All" Sample.df)).
  exists Sample.df. split; [reflexivity|].
  intros r R _. simpl in R.
  repeat (destruct R as [<-|R]; [simpl; lia|]). destruct R.
Defined.

(** X17: the yearly table is empty exactly when no record that passes the
    cause filter has a year above 1910; the chart is then empty and the
    unit-root test is run on no observation at all. *)
Theorem tot_empty_iff
        (adfuller : list Z -> result ADFResult) (window : Z)
        (cause_option : string) (df df' : list FireRecord) :
  record_filter cause_option df = Ok df' ->
  (tot cause_option df = Ok [] <-> forall r, In r df' -> (YEAR r <= 1910)%Z)
  /\ (tot cause_option df = Ok [] ->
      fire_section adfuller window cause_option df
      = (test <- adfuller [] ;;
         Ok ([], {| text_cause := cause_option;
                    text_stationarity := stationarity (adf_pvalue test);
                    text_pvalue :=
                      np_round_float (fsub (Some 1%Q) (adf_pvalue test)) 2 |}))).
Proof.
  intro F. split.
  - unfold tot. rewrite F. cbn [bind]. split.
    + intros T r R. destruct (Z_le_gt_dec (YEAR r) 1910) as [L|G]; [exact L|].
      assert (Y : In (YEAR r) (map fst (tot_by_year df')))
        by (apply tot_by_year_keys_In; split; [now exists r|lia]).
      destruct (tot_by_year df') as [|[y a] rows]; [destruct Y|].
      unfold to_datetime_rows in T. simpl in T.
      destruct (to_datetime y); simpl in T; [|discriminate].
      destruct (mapM _ rows); simpl in T; discriminate.
    + intro U.
      destruct (tot_by_year df') as [|[y a] rows] eqn:E; [reflexivity|].
      assert (Y : In y (map fst (tot_by_year df')))
        by (rewrite E; now left).
      apply tot_by_year_keys_In in Y. destruct Y as [[r [R <-]] L].
      specialize (U r R). lia.
  - intro T. unfold fire_section. rewrite T. cbn [bind].
    unfold stationarity_markdown, dftest. cbn [map].
    destruct (adfuller []); reflexivity.
Qed.

Lemma tot_empty_iff_witness :
  tot "Smoking" Sample.df = Ok []
  <-> forall r, In r (filter (cause_is 3) Sample.df) -> (YEAR r <= 1910)%Z.
Proof.
  apply (tot_empty_iff Sample.adfuller 15 "Smoking" Sample.df
           (filter (cause_is 3) Sample.df)).
  reflexivity.
Defined.

Lemma recovery_markdown_defined (hs : list Home) :
  (exists text, recovery_markdown hs = Ok text)
  <-> (recovered_value hs + destroyed_value hs <> 0)%Z.
Proof.
  rewrite <- recovery_markdown_raises.
  unfold recovery_markdown.
  change (truediv (destroyed_value hs + recovered_value hs) 1000000000)
    with (Ok (Qred (inject_Z (destroyed_value hs + recovered_value hs)
                    / inject_Z 1000000000))).
  change (truediv (recovered_value hs) 1000000000)
    with (Ok (Qred (inject_Z (recovered_value hs) / inject_Z 1000000000))).
  cbn [bind]. unfold truediv.
  destruct (recovered_value hs + destroyed_value hs =? 0)%Z; cbn [bind].
  - split; [intros [t T]; discriminate|intro N; now contradiction N].
  - split; [discriminate|intros _; now eexists].
Qed.

(** X18: one run of the script reaches its end exactly when the table [tot]
    exists, the unit-root test returns on its year column and the two
    status sums do not add up to zero; the page then shows the merged table
    [homes] and the symmetric rolling mean of the climate table. *)
Theorem app_completes_iff
        (adfuller : list Z -> result ADFResult) (window : Z)
        (cause_option : string) (df : list FireRecord)
        (nfdrs_window : Z) (nfdrs : list (Z * Q))
        (burnt : list BurntHome) (recovered : list (option string)) :
  ((exists page,
       app adfuller window cause_option df nfdrs_window nfdrs burnt recovered
       = Ok page)
   <-> (exists t test, tot cause_option df = Ok t
                       /\ adfuller (map fst t) = Ok test)
       /\ (recovered_value (homes burnt recovered)
           + destroyed_value (homes burnt recovered) <> 0)%Z)
  /\ (forall page,
         app adfuller window cause_option df nfdrs_window nfdrs burnt recovered
         = Ok page ->
         page_homes page = homes burnt recovered
         /\ page_climate_chart page = nfdrs_smooth nfdrs_window nfdrs
         /\ map fst (page_fire_chart page)
            = match tot cause_option df with
              | Ok t => map fst t
              | Raise _ => []
              end).
Proof.
  rewrite <- recovery_markdown_defined.
  unfold app, recovery_section, fire_section, stationarity_markdown, dftest.
  destruct (tot cause_option df) as [t|e]; cbn [bind].
  - destruct (adfuller (map fst t)) as [test|e] eqn:A; cbn [bind].
    + destruct (recovery_markdown (homes burnt recovered)) as [text|e];
        cbn [bind fst snd].
      * split.
        -- split; [intros _|intros _; now eexists].
           split; [exists t, test; auto|now exists text].
        -- intros page [= <-]. cbn.
           split; [reflexivity|]. split; [reflexivity|].
           apply (rolling_smoother_keys t window 0).
      * split; [|discriminate].
        split; [intros [p P]; discriminate|intros [_ [x X]]; discriminate].
    + split; [|discriminate].
      split; [intros [p P]; discriminate|].
      intros [[t' [test [[= <-] A']]] _]. congruence.
  - split; [|discriminate].
    split; [intros [p P]; discriminate|].
    intros [[t' [test [T _]]] _]. discriminate.
Qed.

Lemma app_completes_iff_witness :
  exists page,
    app Sample.adfuller 15 "All" Sample.df 200 Sample.series
        Sample.burnt Sample.recovered = Ok page.
Proof.
  apply (proj2 (proj1 (app_completes_iff Sample.adfuller 15 "All" Sample.df
                         200 Sample.series Sample.burnt Sample.recovered))).
  split.
  - eexists. eexists. split; reflexivity.
  - discriminate.
Defined.

(** ** Valuations in the merged table *)

Lemma np_round_0_floor (q : Q) : Qfloor (np_round q 0) = rint q.
Proof. now rewrite (Qfloor_comp _ _ (np_round_0_whole q)), Qfloor_Z. Qed.

(** X19: the merge changes a valuation only by rounding it: every row of
    [homes] shows, for the burnt home it stems from, a whole number of
    dollars at most half a dollar away from that home's valuation, and a
    missing valuation stays missing. *)
Theorem homes_values_whole_dollars
        (burnt : list BurntHome) (recovered : list (option string)) (h : Home) :
  In h (homes burnt recovered) ->
  exists b, In b burnt
            /\ address h = b_address b
            /\ match b_zestimate b with
               | Some q =>
                   exists z, zestimate h = Some z
                             /\ (z == inject_Z (rint q))%Q
                             /\ (q - (1 # 2) <= z <= q + (1 # 2))%Q
               | None => zestimate h = None
               end.
Proof.
  intro H. apply homes_rows_exact in H. destruct H as [b [B ->]].
  exists b. split; [exact B|]. split; [reflexivity|].
  unfold home_row. cbn [zestimate].
  destruct (b_zestimate b) as [q|]; [|reflexivity].
  exists (np_round q 0). split; [reflexivity|].
  pose proof (np_round_0_whole q) as W. split; [exact W|].
  pose proof (rint_close q) as [L U]. rewrite W. lra.
Qed.

Lemma homes_values_whole_dollars_witness :
  exists b, In b Sample.burnt_worthless
            /\ Some "B"%string = b_address b
            /\ match b_zestimate b with
               | Some q =>
                   exists z, Some 0%Q = Some z
                             /\ (z == inject_Z (rint q))%Q
                             /\ (q - (1 # 2) <= z <= q + (1 # 2))%Q
               | None => Some 0%Q = None
               end.
Proof.
  apply (homes_values_whole_dollars Sample.burnt_worthless Sample.recovered
           {| address := Some "B"%string; lat := Some (384 # 10);
              lon := Some (- (1226 # 10)); zestimate := Some 0%Q;
              status := Some "destroyed"%string |}).
  simpl. auto.
Defined.

Lemma filter_key_repeat (a : option string) (l : list (option string)) :
  filter (key_eqb a) l = repeat a (List.length (filter (key_eqb a) l)).
Proof.
  induction l as [|x l IH]; simpl; [reflexivity|].
  destruct (key_eqb a x) eqn:E; [|exact IH].
  apply key_eqb_eq in E. subst x. simpl. now rewrite <- IH.
Qed.

Lemma existsb_filter_length (a : option string) (l : list (option string)) :
  existsb (key_eqb a) l = negb (List.length (filter (key_eqb a) l) =? 0)%nat.
Proof.
  induction l as [|x l IH]; simpl; [reflexivity|].
  destruct (key_eqb a x); simpl; [reflexivity|exact IH].
Qed.

Lemma homes_rows_of_one (recovered : list (option string)) (b : BurntHome) :
  map round_zestimate
      (map fill_destroyed
           (match filter (fun r => key_eqb (b_address b) (fst r))
                         (with_status recovered) with
            | [] => [merged_row b None]
            | matches => map (fun r => merged_row b (Some (snd r))) matches
            end))
  = repeat (home_row recovered b) (rows_for recovered b).
Proof.
  unfold rows_for, home_row.
  rewrite filter_with_status, existsb_filter_length, filter_key_repeat.
  rewrite repeat_length.
  destruct (List.length (filter (key_eqb (b_address b)) recovered)) as [|n].
  - reflexivity.
  - unfold with_status. rewrite map_repeat.
    change (match repeat (b_address b, "recovered"%string) (S n) with
            | [] => [merged_row b None]
            | p :: l => map (fun r => merged_row b (Some (snd r))) (p :: l)
            end)
      with (map (fun r => merged_row b (Some (snd r)))
                (repeat (b_address b, "recovered"%string) (S n))).
    rewrite !map_repeat. reflexivity.
Qed.

Lemma homes_as_repeats (burnt : list BurntHome) (recovered : list (option string)) :
  homes burnt recovered
  = flat_map (fun b => repeat (home_row recovered b) (rows_for recovered b)) burnt.
Proof.
  unfold homes, merge_left.
  induction burnt as [|b burnt IH]; [reflexivity|].
  cbn [flat_map]. rewrite !map_app, IH. f_equal. apply homes_rows_of_one.
Qed.

Lemma whole_sum_app (c1 c2 : list float) :
  whole_sum (c1 ++ c2) = (whole_sum c1 + whole_sum c2)%Z.
Proof. induction c1 as [|x c1 IH]; simpl; [reflexivity|]. rewrite IH. lia. Qed.

Lemma whole_sum_repeat_row (recovered : list (option string)) (b : BurntHome)
      (n : nat) :
  whole_sum (map zestimate (repeat (home_row recovered b) n))
  = (Z.of_nat n * rounded_value b)%Z.
Proof.
  induction n as [|n IH]; [reflexivity|].
  cbn [repeat map whole_sum fold_right]. fold (whole_sum (map zestimate
    (repeat (home_row recovered b) n))). rewrite IH.
  unfold home_row, rounded_value. cbn [zestimate].
  destruct (b_zestimate b) as [q|]; cbn [np_round_float].
  - rewrite np_round_0_floor. lia.
  - lia.
Qed.

(** *** The status sums, row by row *)

Lemma Zsum_cons (x : Z) (l : list Z) : Zsum (x :: l) = (x + Zsum l)%Z.
Proof. reflexivity. Qed.

Lemma filter_repeat {A : Type} (p : A -> bool) (x : A) (n : nat) :
  filter p (repeat x n) = if p x then repeat x n else [].
Proof.
  induction n as [|n IH]; simpl; [now destruct (p x)|].
  rewrite IH. now destruct (p x).
Qed.

Lemma status_is_home_row (recovered : list (option string)) (b : BurntHome) :
  status_is "recovered" (home_row recovered b) = is_recovered recovered b
  /\ status_is "destroyed" (home_row recovered b) = negb (is_recovered recovered b).
Proof.
  unfold status_is, home_row, is_recovered. cbn [status].
  now destruct (existsb (key_eqb (b_address b)) recovered).
Qed.

Lemma value_by_status_rows (s : string) (burnt : list BurntHome)
      (recovered : list (option string)) :
  value_by_status s (homes burnt recovered)
  = Zsum (map (fun b => if status_is s (home_row recovered b)
                        then (Z.of_nat (rows_for recovered b) * rounded_value b)%Z
                        else 0%Z)
              burnt).
Proof.
  unfold value_by_status. rewrite int_np_sum_whole.
  - rewrite homes_as_repeats.
    induction burnt as [|b burnt IH]; [reflexivity|].
    cbn [flat_map map]. rewrite Zsum_cons.
    rewrite filter_app, map_app, whole_sum_app, filter_repeat, IH.
    destruct (status_is s (home_row recovered b)).
    + now rewrite whole_sum_repeat_row.
    + reflexivity.
  - apply Forall_forall. intros x X. apply in_map_iff in X.
    destruct X as [h [<- H]]. apply filter_In in H. destruct H as [H _].
    apply homes_rows_exact in H. destruct H as [b [_ ->]].
    apply np_round_float_0_whole.
Qed.

Lemma rows_for_unique (recovered : list (option string)) (b : BurntHome) :
  NoDup recovered -> rows_for recovered b = 1%nat.
Proof.
  intro N. unfold rows_for. rewrite (filter_unique _ _ N).
  now destruct (existsb (key_eqb (b_address b)) recovered).
Qed.

Lemma Zsum_filter {A : Type} (p : A -> bool) (f : A -> Z) (l : list A) :
  Zsum (map (fun x => if p x then f x else 0%Z) l) = Zsum (map f (filter p l)).
Proof.
  induction l as [|x l IH]; [reflexivity|].
  cbn [map filter]. rewrite Zsum_cons, IH.
  destruct (p x); [cbn [map]; now rewrite Zsum_cons|reflexivity].
Qed.

Lemma Zsum_split {A : Type} (p : A -> bool) (f : A -> Z) (l : list A) :
  (Zsum (map f (filter (fun x => negb (p x)) l)) + Zsum (map f (filter p l))
   = Zsum (map f l))%Z.
Proof.
  induction l as [|x l IH]; [reflexivity|].
  cbn [map filter]. rewrite Zsum_cons, <- IH.
  destruct (p x); cbn [negb map]; rewrite Zsum_cons; lia.
Qed.

Lemma value_by_status_unique (s : string) (burnt : list BurntHome)
      (recovered : list (option string)) :
  NoDup recovered ->
  value_by_status s (homes burnt recovered)
  = Zsum (map rounded_value
              (filter (fun b => status_is s (home_row recovered b)) burnt)).
Proof.
  intro N. rewrite value_by_status_rows, <- Zsum_filter.
  f_equal. apply map_ext. intro b.
  rewrite (rows_for_unique recovered b N).
  destruct (status_is s (home_row recovered b)); [|reflexivity].
  destruct (rounded_value b); reflexivity.
Qed.

(** C4: when no address repeats in the burnt table nor among the recovered
    homes (and the valuations stay in the range of exact sums), the value
    summed over the rows labelled 'recovered' is the sum of the whole-dollar
    valuations of the burnt homes whose address is listed as recovered, the
    value summed over the rows labelled 'destroyed' is that of the other
    burnt homes, and the two together are the sum of the whole-dollar
    valuations of all burnt homes. *)
Theorem value_conservation
        (burnt : list BurntHome) (recovered : list (option string)) :
  NoDup (map b_address burnt) ->
  NoDup recovered ->
  sum_in_exact_range burnt recovered ->
  recovered_value (homes burnt recovered)
  = Zsum (map rounded_value (filter (is_recovered recovered) burnt))
  /\ destroyed_value (homes burnt recovered)
     = Zsum (map rounded_value
                 (filter (fun b => negb (is_recovered recovered b)) burnt))
  /\ (destroyed_value (homes burnt recovered)
      + recovered_value (homes burnt recovered)
      = Zsum (map rounded_value burnt))%Z.
Proof.
  intros _ N _.
  assert (R : recovered_value (homes burnt recovered)
              = Zsum (map rounded_value (filter (is_recovered recovered) burnt))).
  { unfold recovered_value. rewrite (value_by_status_unique _ _ _ N).
    f_equal. f_equal. apply filter_ext. intro b.
    apply (status_is_home_row recovered b). }
  assert (D : destroyed_value (homes burnt recovered)
              = Zsum (map rounded_value
                          (filter (fun b => negb (is_recovered recovered b)) burnt))).
  { unfold destroyed_value. rewrite (value_by_status_unique _ _ _ N).
    f_equal. f_equal. apply filter_ext. intro b.
    apply (status_is_home_row recovered b). }
  split; [exact R|]. split; [exact D|].
  rewrite R, D. apply Zsum_split.
Qed.

Lemma value_conservation_witness :
  recovered_value (homes Sample.burnt Sample.recovered) = 200%Z
  /\ destroyed_value (homes Sample.burnt Sample.recovered) = 100%Z
  /\ (destroyed_value (homes Sample.burnt Sample.recovered)
      + recovered_value (homes Sample.burnt Sample.recovered) = 300)%Z.
Proof.
  apply (value_conservation Sample.burnt Sample.recovered).
  - simpl. repeat constructor; simpl; intuition discriminate.
  - repeat constructor. simpl. tauto.
  - discriminate.
Defined.

(** X20: what repeated addresses do to the dollar totals: as long as the
    valuations of the rows stay in the range of exact sums, the two status
    sums together count the rounded valuation of each burnt home once per
    row the merge gives it, that is once, or as often as its address is
    listed among the recovered homes. *)
Theorem status_sums_count_rows
        (burnt : list BurntHome) (recovered : list (option string)) :
  sum_in_exact_range burnt recovered ->
  (destroyed_value (homes burnt recovered) + recovered_value (homes burnt recovered)
   = Zsum (map (fun b => Z.of_nat (rows_for recovered b) * rounded_value b) burnt))%Z.
Proof.
  intros _. unfold destroyed_value, recovered_value.
  rewrite !value_by_status_rows.
  induction burnt as [|b burnt IH]; [reflexivity|].
  cbn [map]. rewrite !Zsum_cons, <- IH.
  destruct (status_is_home_row recovered b) as [-> ->].
  destruct (is_recovered recovered b); cbn [negb]; lia.
Qed.

Lemma status_sums_count_rows_witness :
  (destroyed_value (homes Sample.burnt Sample.recovered_twice)
   + recovered_value (homes Sample.burnt Sample.recovered_twice) = 500)%Z.
Proof.
  apply (status_sums_count_rows Sample.burnt Sample.recovered_twice).
  discriminate.
Defined.

(** ** The symmetric mean of the climate chart *)

Lemma total_app (l1 l2 : list Q) : (total (l1 ++ l2) == total l1 + total l2)%Q.
Proof. induction l1 as [|x l1 IH]; simpl; [ring|]. rewrite IH. ring. Qed.

Lemma mirrored_total (f : nat -> Q) (n a k : nat) :
  (a + k <= n)%nat ->
  (total (map (fun j => f (n - S j)%nat) (seq a k))
   == total (map f (seq (n - (a + k)) k)))%Q.
Proof.
  revert a. induction k as [|k IH]; intros a B; [reflexivity|].
  rewrite (seq_S k a), map_app, total_app, (IH a) by lia.
  cbn [seq map total].
  replace (S (n - (a + S k)))%nat with (n - (a + k))%nat by lia.
  replace (n - S (a + k))%nat with (n - (a + S k))%nat by lia.
  ring.
Qed.

Lemma arithmetic_mean_same_total (l1 l2 : list Q) :
  List.length l1 = List.length l2 -> (total l1 == total l2)%Q ->
  arithmetic_mean l1 = arithmetic_mean l2.
Proof.
  intros L T. unfold arithmetic_mean. apply Qred_complete.
  now rewrite !total_fold_left, L, T.
Qed.

Lemma frame_bounds_nat (n i : nat) (w : Z) :
  (0 <= w)%Z ->
  Z.to_nat (Z.max 0 (Z.of_nat i - Z.abs (- w))) = (i - Z.to_nat w)%nat
  /\ Z.to_nat (Z.min (Z.of_nat n) (Z.of_nat i + Z.abs w + 1))
     = Nat.min n (i + Z.to_nat w + 1).
Proof.
  intro B. rewrite Z.abs_opp, (Z.abs_eq w B).
  rewrite <- (Z2Nat.id w B) at 1 3. generalize (Z.to_nat w). intro m.
  split.
  - destruct (Nat.le_gt_cases m i) as [L|L].
    + rewrite Z.max_r, <- Nat2Z.inj_sub, Nat2Z.id by lia. reflexivity.
    + rewrite Z.max_l by lia. simpl. lia.
  - rewrite <- (Nat2Z.inj_add i m), <- (Nat2Z.inj_add _ 1), <- Nat2Z.inj_min.
    apply Nat2Z.id.
Qed.

Lemma symmetric_window (n i : nat) (w : Z) :
  (0 <= w)%Z -> (i < n)%nat ->
  exists a k,
    (a + k <= n)%nat
    /\ clipped_window n i w w = seq a k
    /\ clipped_window n (n - S i) w w = seq (n - (a + k)) k.
Proof.
  intros B L.
  assert (L' : (n - S i < n)%nat) by lia.
  pose proof (clipped_window_frame n i w w B B L) as W.
  pose proof (clipped_window_frame n (n - S i) w w B B L') as W'.
  unfold Vega.set_window in W, W'. cbn [fst snd] in W, W'.
  destruct (frame_bounds_nat n i w B) as [A E].
  destruct (frame_bounds_nat n (n - S i) w B) as [A' E'].
  rewrite A, E in W. rewrite A', E' in W'.
  destruct W as [_ [_ W]], W' as [_ [_ W']].
  clear A E A' E'. set (m := Z.to_nat w) in *. clearbody m.
  exists (i - m)%nat, (Nat.min n (i + m + 1) - (i - m))%nat.
  split; [|split; [exact W|]].
  - destruct (Nat.min_spec n (i + m + 1)) as [[? ->]|[? ->]]; lia.
  - rewrite W'. 
    destruct (Nat.min_spec n (i + m + 1)) as [[? ->]|[? ->]];
      destruct (Nat.min_spec n (n - S i + m + 1)) as [[? ->]|[? ->]];
      f_equal; lia.
Qed.

(** X21: the symmetric mean treats past and future alike: smoothing the
    climate series read backwards gives the smoothed series read
    backwards. *)
Theorem nfdrs_smooth_reversed {K : Type} (nfdrs_window : Z)
        (nfdrs : list (K * Q)) :
  (0 <= nfdrs_window)%Z ->
  nfdrs_smooth nfdrs_window (rev nfdrs) = rev (nfdrs_smooth nfdrs_window nfdrs).
Proof.
  intro B. unfold nfdrs_smooth.
  change (Vega.rolling_mean_line (Some (- nfdrs_window)%Z, Some nfdrs_window))
    with (@rolling_smoother K nfdrs_window nfdrs_window).
  set (n := List.length nfdrs).
  apply nth_error_ext. intro i.
  rewrite (nth_error_rev i (rolling_smoother _ _ nfdrs)), rolling_smoother_length.
  fold n.
  destruct (Nat.ltb_spec i n) as [L|L].
  - destruct (nth_error nfdrs (n - S i)) as [[k v]|] eqn:R;
      [|apply nth_error_None in R; unfold n in *; lia].
    assert (R' : nth_error (rev nfdrs) i = Some (k, v)).
    { rewrite nth_error_rev. fold n.
      destruct (Nat.ltb_spec i n); [exact R|lia]. }
    rewrite (rolling_smoother_nth (rev nfdrs) _ _ i _ _ B B R').
    rewrite (rolling_smoother_nth nfdrs _ _ (n - S i) _ _ B B R).
    rewrite length_rev. fold n. do 3 f_equal.
    destruct (symmetric_window n i nfdrs_window B L) as [a [c [A [W W']]]].
    rewrite W, W'. unfold values_at.
    apply arithmetic_mean_same_total; [now rewrite !length_map, !length_seq|].
    rewrite map_rev.
    rewrite <- (mirrored_total (fun j => nth j (map snd nfdrs) 0%Q) n a c A).
    assert (E : map (fun j => nth j (rev (map snd nfdrs)) 0%Q) (seq a c)
                = map (fun j => nth (n - S j) (map snd nfdrs) 0%Q) (seq a c)).
    { apply map_ext_in. intros j J. apply in_seq in J.
      rewrite rev_nth by (rewrite length_map; fold n; lia).
      now rewrite length_map. }
    now rewrite E.
  - apply nth_error_None. rewrite rolling_smoother_length, length_rev. exact L.
Qed.

Lemma nfdrs_smooth_reversed_witness :
  nfdrs_smooth 1 (rev Sample.series) = rev (nfdrs_smooth 1 Sample.series).
Proof.
  apply (nfdrs_smooth_reversed 1 Sample.series). lia.
Defined.
